(** * SEO optimizer: the extract / search / rewrite pipeline of [optimizer.py]

    A shallow embedding of [SEOWorkerThread] (run, extract_search_terms,
    perform_searches, seo_optimize_text) and of
    [SEOOptimizerApp.start_processing], with the properties of the pipeline
    proved over it.

    Python [str] values are sequences of Unicode code points, so a string is
    a [list N]; the network, the JSON decoder and the HTML parser are outside
    the program and enter as an oracle threaded through an explicit state. *)

From Stdlib Require Import String Ascii DecimalString.
From Stdlib Require Import List ZArith NArith Bool Lia.
Import ListNotations.

Set Implicit Arguments.
Set Warnings "-register-all".

(** ** Python strings *)

Definition char := N.
Definition str := list char.

(** A source literal, character by character. *)
Definition lit (s : string) : str := map N_of_ascii (list_ascii_of_string s).
Arguments lit s%_string.

Definition nl : char := 10%N.
Definition space : char := 32%N.
Definition plus : char := 43%N.

Definition str_eqb (a b : str) : bool :=
  if list_eq_dec N.eq_dec a b then true else false.

(** [bool(s)] for a string: non-empty. *)
Definition truthy (s : str) : bool :=
  match s with [] => false | _ :: _ => true end.

(** [str.isspace] on one character (CPython's table of Unicode whitespace). *)
Definition isspace (c : char) : bool :=
  ((9 <=? c) && (c <=? 13) || (28 <=? c) && (c <=? 32)
   || (c =? 133) || (c =? 160) || (c =? 5760)
   || (8192 <=? c) && (c <=? 8202)
   || (c =? 8232) || (c =? 8233) || (c =? 8239) || (c =? 8287)
   || (c =? 12288))%N.

Fixpoint lstrip (s : str) : str :=
  match s with
  | [] => []
  | c :: r => if isspace c then lstrip r else s
  end.

Definition rstrip (s : str) : str := rev (lstrip (rev s)).

(** [s.strip()] *)
Definition strip (s : str) : str := rstrip (lstrip s).

(** [s.split(sep)] for a one-character separator: never an empty list. *)
Fixpoint split (sep : char) (s : str) : list str :=
  match s with
  | [] => [[]]
  | c :: r =>
      if (c =? sep)%N then [] :: split sep r
      else match split sep r with
           | p :: ps => (c :: p) :: ps
           | [] => [[c]]
           end
  end.

(** [sep.join(parts)] *)
Fixpoint join (sep : str) (parts : list str) : str :=
  match parts with
  | [] => []
  | [p] => p
  | p :: ps => p ++ sep ++ join sep ps
  end.

(** [s.replace(' ', '+')] *)
Definition replace_space_plus (s : str) : str :=
  map (fun c => if (c =? space)%N then plus else c) s.

(** A block of source lines, as a triple-quoted literal holds them. *)
Definition lines (ls : list str) : str := join [nl] ls.

(** [repr(k)] of a key without quotes or escapes, as [KeyError] shows it. *)
Definition repr_key (k : str) : str := lit "'" ++ k ++ lit "'".

(** [str(n)] for an integer. *)
Definition str_of_int (n : Z) : str := lit (NilZero.string_of_int (Z.to_int n)).

(** ** Extract step: parsing the model's answer (optimizer.py, lines 85-86)

    [search_terms = [term.strip() for term in content.split('\n') if term.strip()]]
    [return search_terms[:10]] *)
Definition terms_of_pieces (pieces : list str) : list str :=
  firstn 10 (map strip (filter (fun term => truthy (strip term)) pieces)).

Definition parse_search_terms (content : str) : list str :=
  terms_of_pieces (split nl content).

(** The same step in the words of the specification: split on newlines, trim
    every piece, drop the pieces that are empty after trimming, keep at most
    ten. *)
Definition spec_parse_search_terms (content : str) : list str :=
  firstn 10 (filter truthy (map strip (split nl content))).


(** ** Exceptions

    Only [str(e)] of an exception is ever observed ([run] line 53,
    [perform_searches] line 122), so an exception is its class and message. *)
Inductive exn : Type :=
| Exception_ (message : str)      (* [raise Exception(message)] in the source *)
| KeyError (message : str)
| IndexError (message : str)
| TypeError (message : str)
| AttributeError (message : str)
| LibraryError (message : str).   (* raised inside requests, json, bs4 or Qt *)

(** [str(e)] *)
Definition str_exn (e : exn) : str :=
  match e with
  | Exception_ m | KeyError m | IndexError m | TypeError m
  | AttributeError m | LibraryError m => m
  end.

(** ** Decoded JSON ([response.json()]) *)
Inductive value : Type :=
| JNone
| JBool (b : bool)
| JInt (n : Z)
| JFloat (repr : str)
| JStr (s : str)
| JList (l : list value)
| JDict (d : list (str * value)).

Definition type_name (v : value) : str :=
  match v with
  | JNone => lit "NoneType"
  | JBool _ => lit "bool"
  | JInt _ => lit "int"
  | JFloat _ => lit "float"
  | JStr _ => lit "str"
  | JList _ => lit "list"
  | JDict _ => lit "dict"
  end.

Fixpoint dict_get (A : Type) (d : list (str * A)) (k : str) : option A :=
  match d with
  | [] => None
  | (k', v) :: r => if str_eqb k' k then Some v else dict_get r k
  end.

Definition not_subscriptable (v : value) : exn :=
  TypeError (lit "'" ++ type_name v ++ lit "' object is not subscriptable").

(** [v[k]] for a string subscript [k]. *)
Definition getitem_key (v : value) (k : str) : exn + value :=
  match v with
  | JDict d =>
      match dict_get d k with
      | Some x => inr x
      | None => inl (KeyError (repr_key k))
      end
  | JList _ => inl (TypeError (lit "list indices must be integers or slices, not str"))
  | JStr _ => inl (TypeError (lit "string indices must be integers, not 'str'"))
  | _ => inl (not_subscriptable v)
  end.

(** [v[0]] *)
Definition getitem_0 (v : value) : exn + value :=
  match v with
  | JList (x :: _) => inr x
  | JList [] => inl (IndexError (lit "list index out of range"))
  | JStr (c :: _) => inr (JStr [c])
  | JStr [] => inl (IndexError (lit "string index out of range"))
  | JDict _ => inl (KeyError (lit "0"))
  | _ => inl (not_subscriptable v)
  end.

(** [result['content'][0]['text']] (lines 84 and 173). *)
Definition content_0_text (result : value) : exn + value :=
  match getitem_key result (lit "content") with
  | inl e => inl e
  | inr c =>
      match getitem_0 c with
      | inl e => inl e
      | inr c0 => getitem_key c0 (lit "text")
      end
  end.

(** [content.split('\n')]: only a [str] has the method. *)
Definition split_newlines (content : value) : exn + list str :=
  match content with
  | JStr s => inr (split nl s)
  | v => inl (AttributeError
                (lit "'" ++ type_name v ++ lit "' object has no attribute 'split'"))
  end.

(** ** The parsed result page ([BeautifulSoup(response.content, 'html.parser')])

    The tree as bs4 holds it: a tag has a name, its multi-valued [class]
    attribute as a list, its other attributes and its contents; [Comment]
    stands for every string kind that [get_text] skips. *)
Inductive PageElement : Type :=
| Tag (name : str) (class_ : list str) (attrs : list (str * str))
      (contents : list PageElement)
| NavigableString (s : str)
| Comment (s : str).

(** [tag.descendants]: document order, the tag itself excluded. *)
Fixpoint descendants (e : PageElement) : list PageElement :=
  match e with
  | Tag _ _ _ cs => flat_map (fun c => c :: descendants c) cs
  | _ => []
  end.

(** bs4's test for [(name, class_=cls)]: the tag name, and one class of the
    tag, or the whole class string, equal to [cls]. *)
Definition matches (name cls : str) (e : PageElement) : bool :=
  match e with
  | Tag n c _ _ =>
      str_eqb n name && (existsb (str_eqb cls) c || str_eqb (join [space] c) cls)
  | _ => false
  end.

(** [tag.find_all(name, class_=cls)] *)
Definition find_all (name cls : str) (e : PageElement) : list PageElement :=
  filter (matches name cls) (descendants e).

(** [tag.find(name, class_=cls)]: [None] when nothing matches. *)
Definition find (name cls : str) (e : PageElement) : option PageElement :=
  hd_error (find_all name cls e).

Definition strings (e : PageElement) : list str :=
  flat_map (fun d => match d with NavigableString s => [s] | _ => [] end)
           (descendants e).

(** [tag.get_text(strip=True)] *)
Definition get_text_strip (e : PageElement) : str :=
  concat (filter truthy (map strip (strings e))).

(** [tag.get(key, default)] *)
Definition get_attr (e : PageElement) (key default : str) : str :=
  match e with
  | Tag _ _ attrs _ =>
      match dict_get attrs key with Some v => v | None => default end
  | _ => default
  end.

Record SearchResult : Type := {
  title : str;
  description : str;
  url : str
}.

(** Body of the loop over [results] (lines 110-119): the result a container
    yields, if it holds both a title anchor and a snippet anchor. *)
Definition result_of_container (result : PageElement) : option SearchResult :=
  match find (lit "a") (lit "result__a") result,
        find (lit "a") (lit "result__snippet") result with
  | Some title_elem, Some snippet_elem =>
      Some {| title := get_text_strip title_elem;
              description := get_text_strip snippet_elem;
              url := get_attr title_elem (lit "href") [] |}
  | _, _ => None
  end.

(** [soup.find_all('div', class_='result')[:5]] (line 108). *)
Definition result_containers (soup : PageElement) : list PageElement :=
  firstn 5 (find_all (lit "div") (lit "result") soup).

Fixpoint collect (A B : Type) (f : A -> option B) (l : list A) : list B :=
  match l with
  | [] => []
  | x :: r => match f x with Some y => y :: collect f r | None => collect f r end
  end.

(** Everything one result page appends to [self.search_results]. *)
Definition page_results (soup : PageElement) : list SearchResult :=
  collect result_of_container (result_containers soup).

(** [f"https://duckduckgo.com/html/?q={term.replace(' ', '+')}"] (line 101). *)
Definition search_prefix : str := lit "https://duckduckgo.com/html/?q=".
Definition search_url (term : str) : str := search_prefix ++ replace_space_plus term.

(** ** Rewrite step: the context block (lines 134-137) *)
Definition context_entry (result : SearchResult) : str :=
  lit "Title: " ++ title result ++ [nl] ++
  lit "Description: " ++ description result ++ [nl].

Definition search_context (search_results : list SearchResult) : str :=
  join [nl] (map context_entry (firstn 20 search_results)).

(** ** The outside world

    What the program sends, what comes back, and the signals it emits. *)
Record PostRequest : Type := {
  post_url : str;
  post_headers : list (str * str);
  post_json : value
}.

Record GetRequest : Type := {
  get_url : str;
  get_headers : list (str * str);
  get_timeout : Z
}.

Inductive request : Type :=
| POST (r : PostRequest)
| GET (r : GetRequest).

(** A [requests.Response] as the program reads it: [status_code], [text],
    the outcome of [response.json()] and the outcome of
    [BeautifulSoup(response.content, 'html.parser')]. *)
Record Response : Type := {
  status_code : Z;
  text : str;
  json : exn + value;
  soup : exn + PageElement
}.

(** The three signals of [SEOWorkerThread]. *)
Inductive event : Type :=
| progress_updated (message : str)
| finished (optimized_text : str)
| error_occurred (message : str).

(** The network and the Qt binding. A call may raise or answer, and moves
    the world on, so the same request can be answered differently twice.
    [emit_str] is what [Signal(str).emit] makes of an argument that is not a
    [str]: the string delivered, or the exception raised. *)
Class Outside : Type := {
  world : Type;
  requests_post : PostRequest -> world -> (exn + Response) * world;
  requests_get : GetRequest -> world -> (exn + Response) * world;
  emit_str : value -> exn + str
}.

Section Pipeline.
Context {O : Outside}.

(** The worker object and everything it has done so far. *)
Record state : Type := {
  outside : world;
  emitted : list event;                  (* signals, oldest first *)
  search_results : list SearchResult;    (* [self.search_results] *)
  sent : list request                    (* network calls, oldest first *)
}.

(** A statement: runs from a state, raises or returns, leaves a state. *)
Definition M (A : Type) : Type := state -> (exn + A) * state.

Definition ret (A : Type) (x : A) : M A := fun s => (inr x, s).

Definition raise (A : Type) (e : exn) : M A := fun s => (inl e, s).
Arguments raise {A} e.

Definition bind (A B : Type) (m : M A) (k : A -> M B) : M B :=
  fun s =>
    match m s with
    | (inr x, s') => k x s'
    | (inl e, s') => (inl e, s')
    end.

(** [try: m  except Exception as e: handler e] *)
Definition try_except (A : Type) (m : M A) (handler : exn -> M A) : M A :=
  fun s =>
    match m s with
    | (inr x, s') => (inr x, s')
    | (inl e, s') => handler e s'
    end.

Definition lift (A : Type) (r : exn + A) : M A :=
  match r with inl e => raise e | inr x => ret x end.

Definition emit (ev : event) : M unit :=
  fun s => (inr tt, {| outside := outside s;
                       emitted := emitted s ++ [ev];
                       search_results := search_results s;
                       sent := sent s |}).

Definition post (r : PostRequest) : M Response :=
  fun s =>
    let (res, w) := requests_post r (outside s) in
    (res, {| outside := w;
             emitted := emitted s;
             search_results := search_results s;
             sent := sent s ++ [POST r] |}).

Definition get (r : GetRequest) : M Response :=
  fun s =>
    let (res, w) := requests_get r (outside s) in
    (res, {| outside := w;
             emitted := emitted s;
             search_results := search_results s;
             sent := sent s ++ [GET r] |}).

(** [self.search_results.append(r)] *)
Definition append_result (r : SearchResult) : M unit :=
  fun s => (inr tt, {| outside := outside s;
                       emitted := emitted s;
                       search_results := search_results s ++ [r];
                       sent := sent s |}).

Definition read_search_results : M (list SearchResult) :=
  fun s => (inr (search_results s), s).

End Pipeline.

Arguments raise {O A} e.

Declare Scope py_scope.
Delimit Scope py_scope with py.
Notation "x <- m ;; k" := (bind m (fun x => k))
  (at level 61, m at next level, right associativity) : py_scope.
Notation "m ;; k" := (bind m (fun _ => k))
  (at level 61, right associativity) : py_scope.
Open Scope py_scope.

Section Worker.
Context {O : Outside}.

(** [for x in l: body x] *)
Fixpoint for_ (A : Type) (l : list A) (body : A -> M unit) : M unit :=
  match l with
  | [] => ret tt
  | x :: r => body x ;; for_ r body
  end.

Definition api_url : str := lit "https://api.anthropic.com/v1/messages".

Definition api_headers (claude_api_key : str) : list (str * str) :=
  [ (lit "Content-Type", lit "application/json");
    (lit "X-API-Key", claude_api_key);
    (lit "anthropic-version", lit "2023-06-01") ].

Definition api_data (max_tokens : Z) (prompt : str) : value :=
  JDict [ (lit "model", JStr (lit "claude-3-5-sonnet-20241022"));
          (lit "max_tokens", JInt max_tokens);
          (lit "messages",
           JList [ JDict [ (lit "role", JStr (lit "user"));
                           (lit "content", JStr prompt) ] ]) ].

Definition api_error (response : Response) : exn :=
  Exception_ (lit "Claude API error: " ++ str_of_int (status_code response)
              ++ lit " - " ++ text response).

Definition extract_prompt (text : str) : str :=
  lines
    [ [];
      lit "        Analyze the following text and extract 5-10 relevant search terms that would help with SEO optimization. ";
      lit "        Focus on key topics, important keywords, and phrases that people might search for.";
      lit "        Return only the search terms, one per line, without numbering or explanation.";
      lit "        ";
      lit "        Text: " ++ text;
      lit "        " ].

Definition extract_request (text claude_api_key : str) : PostRequest :=
  {| post_url := api_url;
     post_headers := api_headers claude_api_key;
     post_json := api_data 1000 (extract_prompt text) |}.

(** [SEOWorkerThread.extract_search_terms] (lines 55-88). *)
Definition extract_search_terms (text claude_api_key : str) : M (list str) :=
  response <- post (extract_request text claude_api_key) ;;
  if (status_code response =? 200)%Z then
    result <- lift (json response) ;;
    content <- lift (content_0_text result) ;;
    pieces <- lift (split_newlines content) ;;
    ret (terms_of_pieces pieces)
  else
    raise (api_error response).

Definition search_headers : list (str * str) :=
  [ (lit "User-Agent",
     lit "Mozilla/5.0 (Windows NT 10.0; Win64; x64) AppleWebKit/537.36") ].

Definition search_request (term : str) : GetRequest :=
  {| get_url := search_url term;
     get_headers := search_headers;
     get_timeout := 10 |}.

(** The [try] block of one term (lines 98-119). *)
Definition search_term (term : str) : M unit :=
  emit (progress_updated (lit "Searching for: " ++ term)) ;;
  response <- get (search_request term) ;;
  if (status_code response =? 200)%Z then
    page <- lift (soup response) ;;
    for_ (result_containers page)
         (fun result =>
            match result_of_container result with
            | Some r => append_result r
            | None => ret tt
            end)
  else
    ret tt.

(** The [except] block of one term (lines 121-123). *)
Definition search_error (term : str) (e : exn) : M unit :=
  emit (progress_updated
          (lit "Search error for '" ++ term ++ lit "': " ++ str_exn e)).

(** [SEOWorkerThread.perform_searches] (lines 90-123). *)
Definition perform_searches (search_terms : list str) : M unit :=
  for_ search_terms
       (fun term => try_except (search_term term) (search_error term)).

Definition optimize_prompt (original_text search_context : str) : str :=
  lines
    [ [];
      lit "        Please optimize the following text for SEO based on the search results provided. ";
      lit "        Use the titles and descriptions as reference to understand what content performs well for related topics.";
      lit "        ";
      lit "        Improve the text by:";
      lit "        1. Adding relevant keywords naturally";
      lit "        2. Improving readability and structure";
      lit "        3. Making it more engaging";
      lit "        4. Ensuring it addresses topics that appear frequently in the search results";
      lit "        ";
      lit "        Keep the core message and style intact while making it more SEO-friendly. Keep the word count almost same plus or minus a few words. Create a few variations of the SEO optimised text.";
      lit "        ";
      lit "        Original Text:";
      lit "        " ++ original_text;
      lit "        ";
      lit "        Search Results for Reference:";
      lit "        " ++ search_context;
      lit "        ";
      lit "        Output just the optimised texts, do not output anything else.";
      lit "        " ].

Definition optimize_request (original_text claude_api_key : str)
    (results : list SearchResult) : PostRequest :=
  {| post_url := api_url;
     post_headers := api_headers claude_api_key;
     post_json := api_data 2000 (optimize_prompt original_text (search_context results)) |}.

(** [SEOWorkerThread.seo_optimize_text] (lines 125-175). *)
Definition seo_optimize_text (original_text claude_api_key : str)
    (results : list SearchResult) : M value :=
  response <- post (optimize_request original_text claude_api_key results) ;;
  if (status_code response =? 200)%Z then
    result <- lift (json response) ;;
    lift (content_0_text result)
  else
    raise (api_error response).

(** [self.finished.emit(optimized_text)] on a [Signal(str)]. *)
Definition emit_finished (optimized_text : value) : M unit :=
  match optimized_text with
  | JStr s => emit (finished s)
  | v => s <- lift (emit_str v) ;; emit (finished s)
  end.

(** The [try] block of [run] (lines 38-50). *)
Definition run_body (text claude_api_key : str) : M unit :=
  emit (progress_updated (lit "Extracting search terms using Claude...")) ;;
  search_terms <- extract_search_terms text claude_api_key ;;
  emit (progress_updated (lit "Performing Google searches...")) ;;
  perform_searches search_terms ;;
  emit (progress_updated (lit "Optimizing content with Claude...")) ;;
  results <- read_search_results ;;
  optimized_text <- seo_optimize_text text claude_api_key results ;;
  emit_finished optimized_text.

(** [SEOWorkerThread.run] (lines 36-53). *)
Definition run (text claude_api_key : str) : M unit :=
  try_except (run_body text claude_api_key)
             (fun e => emit (error_occurred (str_exn e))).

(** A fresh [SEOWorkerThread]: nothing emitted, sent or collected yet. *)
Definition new_worker (w : world) : state :=
  {| outside := w; emitted := []; search_results := []; sent := [] |}.

End Worker.

(** ** The window: [SEOOptimizerApp.start_processing] and its slots *)
Inductive dialog : Type :=
| warning (caption message : str)
| critical (caption message : str).

Record App : Type := {
  input_text : str;             (* [self.input_text.toPlainText()] *)
  api_key_input : str;          (* [self.api_key_input.text()] *)
  process_btn_enabled : bool;
  progress_bar_visible : bool;
  progress_bar_range : Z * Z;
  output_text : str;
  status_label : str;
  dialogs : list dialog         (* message boxes shown, oldest first *)
}.

Definition show (d : dialog) (app : App) : App :=
  {| input_text := input_text app;
     api_key_input := api_key_input app;
     process_btn_enabled := process_btn_enabled app;
     progress_bar_visible := progress_bar_visible app;
     progress_bar_range := progress_bar_range app;
     output_text := output_text app;
     status_label := status_label app;
     dialogs := dialogs app ++ [d] |}.

(** [SEOOptimizerApp.start_processing] (lines 557-580): the window
    afterwards and, if one was started, the arguments of the worker. *)
Definition start_processing (app : App) : App * option (str * str) :=
  let text := strip (input_text app) in
  let api_key := strip (api_key_input app) in
  if negb (truthy text) then
    (show (warning (lit "Warning") (lit "Please enter text to optimize.")) app, None)
  else if negb (truthy api_key) then
    (show (warning (lit "Warning") (lit "Please enter your Claude API key.")) app, None)
  else
    ({| input_text := input_text app;
        api_key_input := api_key_input app;
        process_btn_enabled := false;
        progress_bar_visible := true;
        progress_bar_range := (0, 0)%Z;
        output_text := [];
        status_label := status_label app;
        dialogs := dialogs app |},
     Some (text, api_key)).

(** [SEOOptimizerApp.reset_ui] *)
Definition reset_ui (app : App) : App :=
  {| input_text := input_text app;
     api_key_input := api_key_input app;
     process_btn_enabled := true;
     progress_bar_visible := false;
     progress_bar_range := progress_bar_range app;
     output_text := output_text app;
     status_label := status_label app;
     dialogs := dialogs app |}.

Definition set_status (message : str) (app : App) : App :=
  {| input_text := input_text app;
     api_key_input := api_key_input app;
     process_btn_enabled := process_btn_enabled app;
     progress_bar_visible := progress_bar_visible app;
     progress_bar_range := progress_bar_range app;
     output_text := output_text app;
     status_label := message;
     dialogs := dialogs app |}.

Definition set_output (optimized_text : str) (app : App) : App :=
  {| input_text := input_text app;
     api_key_input := api_key_input app;
     process_btn_enabled := process_btn_enabled app;
     progress_bar_visible := progress_bar_visible app;
     progress_bar_range := progress_bar_range app;
     output_text := optimized_text;
     status_label := status_label app;
     dialogs := dialogs app |}.

(** The slots [update_status], [processing_finished], [processing_error]
    (lines 582-593), as the signal connected to each one reaches it. *)
Definition deliver (app : App) (ev : event) : App :=
  match ev with
  | progress_updated message => set_status message app
  | finished optimized_text =>
      reset_ui (set_status (lit "Optimization completed successfully!")
                           (set_output optimized_text app))
  | error_occurred error_message =>
      reset_ui (set_status (lit "Error occurred during processing.")
                  (show (critical (lit "Error")
                                  (lit "An error occurred:" ++ [nl] ++ error_message))
                        app))
  end.

(** One press of the button: [start_processing], then the worker it started,
    if any, run to its end with its signals delivered in order. Gives the
    window, the world afterwards and the network calls made. *)
Definition process_clicked {O : Outside} (app : App) (w : world)
  : App * world * list request :=
  match start_processing app with
  | (app', None) => (app', w, [])
  | (app', Some (text, api_key)) =>
      let s := snd (run text api_key (new_worker w)) in
      (fold_left deliver (emitted s) app', outside s, sent s)
  end.

(** ** URL encoding, in the words of the specification

    The query as [application/x-www-form-urlencoded] writes it: a space is
    [+], letters, digits and [_ . - ~] stand for themselves, every other
    character is the [%XX] escapes of its UTF-8 bytes. *)
Definition unreserved (c : char) : bool :=
  ((48 <=? c) && (c <=? 57) || (65 <=? c) && (c <=? 90)
   || (97 <=? c) && (c <=? 122)
   || (c =? 95) || (c =? 46) || (c =? 45) || (c =? 126))%N.

Definition hex_digit (n : N) : char :=
  (if n <? 10 then 48 + n else 55 + n)%N.

Definition percent_escape (byte : N) : str :=
  [37%N; hex_digit (byte / 16); hex_digit (byte mod 16)].

Definition utf8 (c : char) : list N :=
  (if c <? 128 then [c]
   else if c <? 2048 then [192 + c / 64; 128 + c mod 64]
   else if c <? 65536 then [224 + c / 4096; 128 + (c / 64) mod 64; 128 + c mod 64]
   else [240 + c / 262144; 128 + (c / 4096) mod 64;
         128 + (c / 64) mod 64; 128 + c mod 64])%N.

Definition spec_url_encode (s : str) : str :=
  flat_map (fun c => if (c =? space)%N then [plus]
                     else if unreserved c then [c]
                     else flat_map percent_escape (utf8 c)) s.

(** ** A scripted world

    The answers of the network are a queue, one taken per call whatever the
    request; an exhausted queue is a connection failure. The Qt binding
    refuses every argument that is not a [str]. *)
Definition scripted_call (A : Type) (_ : A) (w : list (exn + Response))
  : (exn + Response) * list (exn + Response) :=
  match w with
  | [] => (inl (LibraryError (lit "connection failed")), [])
  | answer :: r => (answer, r)
  end.

Definition scripted : Outside :=
  {| world := list (exn + Response);
     requests_post := @scripted_call PostRequest;
     requests_get := @scripted_call GetRequest;
     emit_str := fun _ => inl (TypeError (lit "argument 1 has unexpected type")) |}.

Definition script (answers : list (exn + Response)) : @world scripted := answers.

Definition ok_json (answer : str) : Response :=
  {| status_code := 200;
     text := [];
     json := inr (JDict [(lit "content", JList [JDict [(lit "text", JStr answer)]])]);
     soup := inl (LibraryError (lit "not a page")) |}.

Definition status_only (code : Z) (body : str) : Response :=
  {| status_code := code;
     text := body;
     json := inl (LibraryError (lit "Expecting value: line 1 column 1 (char 0)"));
     soup := inr (Tag (lit "[document]") [] [] []) |}.

Definition anchor (cls href words : str) : PageElement :=
  Tag (lit "a") [cls] [(lit "href", href)] [NavigableString words].

Definition container (parts : list PageElement) : PageElement :=
  Tag (lit "div") [lit "result"] [] parts.

Definition ok_page (containers : list PageElement) : Response :=
  {| status_code := 200;
     text := [];
     json := inl (LibraryError (lit "Expecting value: line 1 column 1 (char 0)"));
     soup := inr (Tag (lit "[document]") [] [] containers) |}.

Definition full_container (n : N) : PageElement :=
  container [ anchor (lit "result__a") (lit "https://example.org/" ++ [48 + n]%N)
                     (lit " Coffee " ++ [48 + n]%N);
              anchor (lit "result__snippet") [] (lit "Fresh beans ") ].

Definition coffee_response : str :=
  join [nl] [lit "organic coffee"; lit "coffee beans"; lit "buy coffee online"].

Definition coffee_text : str := lit "Buy organic coffee beans online".

Definition coffee_terms : list str :=
  [lit "organic coffee"; lit "coffee beans"; lit "buy coffee online"].

Definition coffee_result (n : N) : SearchResult :=
  {| title := lit "Coffee " ++ [48 + n]%N;
     description := lit "Fresh beans";
     url := lit "https://example.org/" ++ [48 + n]%N |}.

(** The second of three searches times out. *)
Definition one_search_fails : @world scripted :=
  script [ inr (ok_json coffee_response);
           inr (ok_page [full_container 1]);
           inl (LibraryError (lit "timed out"));
           inr (ok_page [full_container 3]);
           inr (ok_json (lit "Better coffee")) ].

(** Every search times out. *)
Definition all_searches_fail : @world scripted :=
  script [ inr (ok_json coffee_response);
           inl (LibraryError (lit "timed out"));
           inl (LibraryError (lit "timed out"));
           inl (LibraryError (lit "timed out"));
           inr (ok_json (lit "Better coffee")) ].

(** A page of seven containers, the second without a snippet. *)
Definition crowded_page : PageElement :=
  Tag (lit "[document]") [] []
      [ full_container 1;
        container [anchor (lit "result__a") (lit "https://example.org/2") (lit "Coffee 2")];
        full_container 3; full_container 4; full_container 5;
        full_container 6; full_container 7 ].

Definition crowded_answer : Response :=
  {| status_code := 200;
     text := [];
     json := inl (LibraryError (lit "Expecting value: line 1 column 1 (char 0)"));
     soup := inr crowded_page |}.

Definition blank_window (typed key : str) : App :=
  {| input_text := typed;
     api_key_input := key;
     process_btn_enabled := true;
     progress_bar_visible := false;
     progress_bar_range := (0, 100)%Z;
     output_text := [];
     status_label := lit "Ready";
     dialogs := [] |}.

(** ** What the search loop does, read off the answers of the world

    The answer to each term's request in turn, and what one answer makes the
    loop body do: the exception its [try] block ends with, the results it
    appends, the notifications it emits. *)
Section Answers.
Context {O : Outside}.

Fixpoint answers (terms : list str) (w : world) : list (exn + Response) :=
  match terms with
  | [] => []
  | term :: r =>
      fst (requests_get (search_request term) w)
      :: answers r (snd (requests_get (search_request term) w))
  end.

Fixpoint world_after (terms : list str) (w : world) : world :=
  match terms with
  | [] => w
  | term :: r => world_after r (snd (requests_get (search_request term) w))
  end.

Definition term_failure (answer : exn + Response) : option exn :=
  match answer with
  | inl e => Some e
  | inr response =>
      if (status_code response =? 200)%Z then
        match soup response with inl e => Some e | inr _ => None end
      else None
  end.

Definition term_results (answer : exn + Response) : list SearchResult :=
  match answer with
  | inl _ => []
  | inr response =>
      if (status_code response =? 200)%Z then
        match soup response with inl _ => [] | inr page => page_results page end
      else []
  end.

Definition error_notice (term : str) (e : exn) : event :=
  progress_updated (lit "Search error for '" ++ term ++ lit "': " ++ str_exn e).

Definition term_events (term : str) (answer : exn + Response) : list event :=
  progress_updated (lit "Searching for: " ++ term)
  :: match term_failure answer with
     | Some e => [error_notice term e]
     | None => []
     end.

Definition search_events (terms : list str) (w : world) : list event :=
  flat_map (fun ta => term_events (fst ta) (snd ta)) (combine terms (answers terms w)).

Definition collected (terms : list str) (w : world) : list SearchResult :=
  flat_map term_results (answers terms w).

Definition search_requests (terms : list str) : list request :=
  map (fun term => GET (search_request term)) terms.

End Answers.

(** ** What the two model calls do, read off the answer of the world *)
Section Outcomes.
Context {O : Outside}.

(** What [extract_search_terms] returns or raises on an answer. *)
Definition extract_outcome (answer : exn + Response) : exn + list str :=
  match answer with
  | inl e => inl e
  | inr response =>
      if (status_code response =? 200)%Z then
        match json response with
        | inl e => inl e
        | inr result =>
            match content_0_text result with
            | inl e => inl e
            | inr content =>
                match split_newlines content with
                | inl e => inl e
                | inr pieces => inr (terms_of_pieces pieces)
                end
            end
        end
      else inl (api_error response)
  end.

(** What [seo_optimize_text] returns or raises on an answer. *)
Definition optimize_outcome (answer : exn + Response) : exn + value :=
  match answer with
  | inl e => inl e
  | inr response =>
      if (status_code response =? 200)%Z then
        match json response with
        | inl e => inl e
        | inr result => content_0_text result
        end
      else inl (api_error response)
  end.

(** The string [finished] carries for a returned value, or the exception
    its [emit] raises. *)
Definition delivered (optimized_text : value) : exn + str :=
  match optimized_text with
  | JStr s => inr s
  | v => emit_str v
  end.

(** The signal that ends a run whose rewrite step saw [answer]. *)
Definition terminal_event (answer : exn + Response) : event :=
  match optimize_outcome answer with
  | inl e => error_occurred (str_exn e)
  | inr v =>
      match delivered v with
      | inl e => error_occurred (str_exn e)
      | inr s => finished s
      end
  end.

End Outcomes.

Definition is_progress (ev : event) : Prop :=
  match ev with progress_updated _ => True | _ => False end.

Definition progress_1 : event :=
  progress_updated (lit "Extracting search terms using Claude...").
Definition progress_2 : event :=
  progress_updated (lit "Performing Google searches...").
Definition progress_3 : event :=
  progress_updated (lit "Optimizing content with Claude...").

(** The searches answer, the rewrite call is refused. *)
Definition rewrite_is_refused : @world scripted :=
  script [ inr (ok_json coffee_response);
           inr (ok_page [full_container 1]);
           inr (ok_page []);
           inr (status_only 503 (lit "busy"));
           inr (status_only 529 (lit "overloaded")) ].

(** The model answers 200 with a JSON object that has no [content]. *)
Definition no_content_answer : Response :=
  {| status_code := 200;
     text := [];
     json := inr (JDict [(lit "type", JStr (lit "error"))]);
     soup := inl (LibraryError (lit "not a page")) |}.

(** The model answers 200 with nothing but blank lines. *)
Definition blank_answer_world : @world scripted :=
  script [ inr (ok_json (lit "  " ++ [nl] ++ [9%N; nl] ++ lit " "));
           inr (ok_json (lit "Better coffee")) ].

(** ** Fonts: [get_best_available_font], [load_custom_fonts], [get_font_family] *)

(** [x in l] for a list of strings. *)
Definition contains (l : list str) (x : str) : bool := existsb (str_eqb x) l.

Definition preferred_fonts : list str :=
  [ lit "Inter"; lit "SF Pro Display"; lit "Segoe UI";
    lit "Ubuntu"; lit "Roboto"; lit "Arial" ].

(** The loop of lines 463-467 over a list of preferences, with its final
    [return "Arial"]. *)
Fixpoint first_available (preferences available_fonts : list str) : str :=
  match preferences with
  | [] => lit "Arial"
  | font :: rest =>
      if contains available_fonts font then font
      else first_available rest available_fonts
  end.

(** [SEOOptimizerApp.get_best_available_font] (lines 450-467);
    [available_fonts] is [QFontDatabase.families()]. *)
Definition get_best_available_font (available_fonts : list str) : str :=
  first_available preferred_fonts available_fonts.



(** ** The credential store: [save_api_key], [load_api_key]

    [keyring] is outside the program: a call may raise or answer, and moves
    the store on. [get_password] answers [None] or a string. *)
Class Keyring : Type := {
  vault : Type;
  set_password : str -> str -> str -> vault -> (exn + unit) * vault;
  get_password : str -> str -> vault -> (exn + option str) * vault
}.

Definition service_name : str := lit "seo_optimizer".
Definition account_name : str := lit "claude_api_key".

Inductive message_box : Type :=
| plain (d : dialog)                       (* [QMessageBox.warning], [.critical] *)
| information (caption message : str).     (* [QMessageBox.information] *)

(** The closures handed to [QTimer.singleShot], with the text they captured. *)
Inductive callback : Type :=
| reset_save_button (original_text : str)
| reset_load_button (original_text : str).

(** The window with its two key buttons, the boxes the key functions have
    shown and the timers they have armed (oldest first). *)
Record Panel : Type := {
  window : App;
  save_key_btn_text : str;
  save_key_btn_enabled : bool;
  load_key_btn_text : str;
  load_key_btn_enabled : bool;
  boxes : list message_box;
  timers : list (Z * callback)
}.

Definition show_box (b : message_box) (p : Panel) : Panel :=
  {| window := window p;
     save_key_btn_text := save_key_btn_text p;
     save_key_btn_enabled := save_key_btn_enabled p;
     load_key_btn_text := load_key_btn_text p;
     load_key_btn_enabled := load_key_btn_enabled p;
     boxes := boxes p ++ [b];
     timers := timers p |}.

Definition set_save_button (label : str) (enabled : bool) (p : Panel) : Panel :=
  {| window := window p;
     save_key_btn_text := label;
     save_key_btn_enabled := enabled;
     load_key_btn_text := load_key_btn_text p;
     load_key_btn_enabled := load_key_btn_enabled p;
     boxes := boxes p;
     timers := timers p |}.

Definition set_load_button (label : str) (enabled : bool) (p : Panel) : Panel :=
  {| window := window p;
     save_key_btn_text := save_key_btn_text p;
     save_key_btn_enabled := save_key_btn_enabled p;
     load_key_btn_text := label;
     load_key_btn_enabled := enabled;
     boxes := boxes p;
     timers := timers p |}.

(** [QTimer.singleShot(msec, c)] *)
Definition single_shot (msec : Z) (c : callback) (p : Panel) : Panel :=
  {| window := window p;
     save_key_btn_text := save_key_btn_text p;
     save_key_btn_enabled := save_key_btn_enabled p;
     load_key_btn_text := load_key_btn_text p;
     load_key_btn_enabled := load_key_btn_enabled p;
     boxes := boxes p;
     timers := timers p ++ [(msec, c)] |}.

(** [self.api_key_input.setText(api_key)], the field taken to hold the
    string as given. *)
Definition set_api_key_input (api_key : str) (p : Panel) : Panel :=
  {| window := {| input_text := input_text (window p);
                  api_key_input := api_key;
                  process_btn_enabled := process_btn_enabled (window p);
                  progress_bar_visible := progress_bar_visible (window p);
                  progress_bar_range := progress_bar_range (window p);
                  output_text := output_text (window p);
                  status_label := status_label (window p);
                  dialogs := dialogs (window p) |};
     save_key_btn_text := save_key_btn_text p;
     save_key_btn_enabled := save_key_btn_enabled p;
     load_key_btn_text := load_key_btn_text p;
     load_key_btn_enabled := load_key_btn_enabled p;
     boxes := boxes p;
     timers := timers p |}.

Definition check_mark : char := 10003%N.

(** The body of the nested [reset_button] functions (lines 514-516, 542-544). *)
Definition fire (c : callback) (p : Panel) : Panel :=
  match c with
  | reset_save_button original_text => set_save_button original_text true p
  | reset_load_button original_text => set_load_button original_text true p
  end.

Section KeyStore.
Context {K : Keyring}.

(** [SEOOptimizerApp.save_api_key] (lines 495-523). *)
Definition save_api_key (p : Panel) (v : vault) : Panel * vault :=
  let api_key := strip (api_key_input (window p)) in
  if negb (truthy api_key) then
    (show_box (plain (warning (lit "Warning")
                              (lit "Please enter an API key before saving."))) p,
     v)
  else
    match set_password service_name account_name api_key v with
    | (inr _, v') =>
        let p1 := show_box (information (lit "Success")
                                        (lit "API key saved securely!")) p in
        let original_text := save_key_btn_text p1 in
        let p2 := set_save_button (lit "Saved " ++ [check_mark]) false p1 in
        (single_shot 2000 (reset_save_button original_text) p2, v')
    | (inl e, v') =>
        (show_box (plain (critical (lit "Error")
                                   (lit "Failed to save API key:" ++ [nl] ++ str_exn e)))
                  p,
         v')
    end.

(** [SEOOptimizerApp.load_api_key] (lines 525-555). *)
Definition load_api_key (show_message : bool) (p : Panel) (v : vault)
  : Panel * vault :=
  match get_password service_name account_name v with
  | (inr (Some (c :: r)), v') =>
      let api_key := c :: r in
      let p1 := set_api_key_input api_key p in
      let p2 := if show_message
                then show_box (information (lit "Success")
                                           (lit "API key loaded successfully!")) p1
                else p1 in
      let original_text := load_key_btn_text p2 in
      let p3 := set_load_button (lit "Loaded " ++ [check_mark]) false p2 in
      (single_shot 2000 (reset_load_button original_text) p3, v')
  | (inr _, v') =>
      (if show_message
       then show_box (information (lit "Info") (lit "No saved API key found.")) p
       else p,
       v')
  | (inl e, v') =>
      (if show_message
       then show_box (plain (critical (lit "Error")
                                      (lit "Failed to load API key:" ++ [nl]
                                       ++ str_exn e))) p
       else p,
       v')
  end.

End KeyStore.

(** An in-memory store: one password per (service, account), newest first. *)
Definition memory_keyring : Keyring :=
  {| vault := list ((str * str) * str);
     set_password := fun service account password v =>
                       (inr tt, ((service, account), password) :: v);
     get_password := fun service account v =>
                       (inr (option_map snd
                               (List.find (fun entry =>
                                             str_eqb (fst (fst entry)) service
                                             && str_eqb (snd (fst entry)) account)
                                          v)),
                        v) |}.

(** A store that is locked: every call raises. *)
Definition locked_keyring : Keyring :=
  {| vault := unit;
     set_password := fun _ _ _ v => (inl (LibraryError (lit "keyring is locked")), v);
     get_password := fun _ _ v => (inl (LibraryError (lit "keyring is locked")), v) |}.

Definition blank_panel (typed key : str) : Panel :=
  {| window := blank_window typed key;
     save_key_btn_text := lit "Save Key";
     save_key_btn_enabled := true;
     load_key_btn_text := lit "Load Key";
     load_key_btn_enabled := true;
     boxes := [];
     timers := [] |}.

(** * Properties *)

(** ** Strings and the parsing of search terms *)

Lemma map_filter_comm (A B : Type) (f : A -> B) (p : B -> bool) (l : list A) :
  map f (filter (fun x => p (f x)) l) = filter p (map f l).
Proof.
  induction l as [|x l IH]; simpl; [reflexivity|].
  destruct (p (f x)); simpl; rewrite IH; reflexivity.
Qed.

Lemma parse_search_terms_refines (content : str) :
  parse_search_terms content = spec_parse_search_terms content.
Proof.
  unfold parse_search_terms, terms_of_pieces, spec_parse_search_terms.
  now rewrite (map_filter_comm strip truthy).
Qed.

Lemma parse_search_terms_length (content : str) :
  length (parse_search_terms content) <= 10.
Proof. unfold parse_search_terms, terms_of_pieces. apply firstn_le_length. Qed.

Lemma Forall_firstn (A : Type) (P : A -> Prop) (n : nat) (l : list A) :
  Forall P l -> Forall P (firstn n l).
Proof.
  intros H. revert n. induction H; intros [|n]; simpl; constructor; auto.
Qed.

Lemma In_firstn_In (A : Type) (n : nat) (l : list A) (x : A) :
  In x (firstn n l) -> In x l.
Proof.
  intros H. rewrite <- (firstn_skipn n l). apply in_or_app. now left.
Qed.

Lemma lstrip_suffix (s : str) : exists p, s = p ++ lstrip s.
Proof.
  induction s as [|c r [p IH]]; simpl.
  - now exists [].
  - destruct (isspace c).
    + exists (c :: p). simpl. now rewrite <- IH.
    + now exists [].
Qed.

Lemma lstrip_head (s : str) (c : char) (r : str) :
  lstrip s = c :: r -> isspace c = false.
Proof.
  induction s as [|d t IH]; simpl; [discriminate|].
  destruct (isspace d) eqn:E; [exact IH|].
  intros H. injection H as -> _. exact E.
Qed.

Lemma lstrip_fixed (s : str) :
  (forall c r, s = c :: r -> isspace c = false) -> lstrip s = s.
Proof.
  destruct s as [|c r]; simpl; [reflexivity|].
  intros H. now rewrite (H c r eq_refl).
Qed.

Lemma lstrip_idempotent (s : str) : lstrip (lstrip s) = lstrip s.
Proof. apply lstrip_fixed. intros c r. apply lstrip_head. Qed.

Lemma rstrip_prefix (s : str) : exists q, s = rstrip s ++ q.
Proof.
  unfold rstrip. destruct (lstrip_suffix (rev s)) as [p Hp].
  exists (rev p). rewrite <- rev_app_distr, <- Hp. now rewrite rev_involutive.
Qed.

Lemma rstrip_idempotent (s : str) : rstrip (rstrip s) = rstrip s.
Proof. unfold rstrip. now rewrite rev_involutive, lstrip_idempotent. Qed.

Lemma strip_idempotent (s : str) : strip (strip s) = strip s.
Proof.
  unfold strip.
  assert (H : lstrip (rstrip (lstrip s)) = rstrip (lstrip s)).
  { apply lstrip_fixed. intros c r E.
    destruct (rstrip_prefix (lstrip s)) as [q Hq].
    rewrite E in Hq. simpl in Hq. exact (lstrip_head _ Hq). }
  rewrite H. apply rstrip_idempotent.
Qed.

Lemma terms_of_pieces_trimmed (pieces : list str) :
  Forall (fun term => term <> [] /\ strip term = term) (terms_of_pieces pieces).
Proof.
  unfold terms_of_pieces. apply Forall_firstn, Forall_forall. intros t Ht.
  apply in_map_iff in Ht. destruct Ht as [x [<- Hx]].
  apply filter_In in Hx. destruct Hx as [_ Hx].
  split; [now destruct (strip x)|apply strip_idempotent].
Qed.

(** ** Running statements *)

Section Running.
Context {O : Outside}.

Lemma bind_inr (A B : Type) (m : M A) (k : A -> M B) (s s' : state) (x : A) :
  m s = (inr x, s') -> bind m k s = k x s'.
Proof. unfold bind. now intros ->. Qed.

Lemma try_inr (A : Type) (m : M A) (h : exn -> M A) (s s' : state) (x : A) :
  m s = (inr x, s') -> try_except m h s = (inr x, s').
Proof. unfold try_except. now intros ->. Qed.

Lemma state_eta (s : state) :
  {| outside := outside s; emitted := emitted s;
     search_results := search_results s; sent := sent s |} = s.
Proof. now destruct s. Qed.

(** The loop over the containers of one page appends what they yield. *)
Lemma containers_loop (cs : list PageElement) (s : state) :
  for_ cs (fun result =>
             match result_of_container result with
             | Some r => append_result r
             | None => ret tt
             end) s
  = (inr tt, {| outside := outside s;
                emitted := emitted s;
                search_results := search_results s ++ collect result_of_container cs;
                sent := sent s |}).
Proof.
  revert s. induction cs as [|c cs IH]; intros s; simpl.
  - unfold ret. now rewrite app_nil_r, state_eta.
  - unfold bind. destruct (result_of_container c) as [r|]; simpl.
    + rewrite IH. simpl. now rewrite <- app_assoc.
    + rewrite IH. reflexivity.
Qed.

(** One turn of the search loop, whatever the world answers. *)
Lemma search_turn (term : str) (s : state) :
  try_except (search_term term) (search_error term) s
  = (inr tt,
     {| outside := snd (requests_get (search_request term) (outside s));
        emitted := emitted s
                   ++ term_events term (fst (requests_get (search_request term) (outside s)));
        search_results := search_results s
                   ++ term_results (fst (requests_get (search_request term) (outside s)));
        sent := sent s ++ [GET (search_request term)] |}).
Proof.
  unfold try_except, search_term, bind, emit, get, term_events, term_failure,
    term_results. simpl.
  destruct (requests_get (search_request term) (outside s)) as [[e|response] w]; simpl.
  - unfold search_error, emit, error_notice. simpl.
    now rewrite app_nil_r, <- app_assoc.
  - destruct (status_code response =? 200)%Z.
    + destruct (soup response) as [e|page]; simpl.
      * unfold search_error, emit, error_notice. simpl.
        now rewrite app_nil_r, <- app_assoc.
      * rewrite containers_loop. reflexivity.
    + unfold ret. now rewrite app_nil_r.
Qed.

(** The whole search step: it always returns, and its effect is the
    turn-by-turn effect of the answers. *)
Lemma perform_searches_effect (terms : list str) (s : state) :
  perform_searches terms s
  = (inr tt,
     {| outside := world_after terms (outside s);
        emitted := emitted s ++ search_events terms (outside s);
        search_results := search_results s ++ collected terms (outside s);
        sent := sent s ++ search_requests terms |}).
Proof.
  unfold perform_searches. revert s.
  induction terms as [|term terms IH]; intros s.
  - simpl. unfold ret, search_events, collected. simpl.
    now rewrite !app_nil_r, state_eta.
  - cbn [for_]. erewrite bind_inr by apply search_turn. rewrite IH.
    unfold search_events, collected, search_requests. simpl.
    now rewrite <- !app_assoc.
Qed.

End Running.

(** ** The two model calls and the whole run *)

Section RunEffect.
Context {O : Outside}.

Lemma extract_search_terms_effect (text claude_api_key : str) (s : state) :
  extract_search_terms text claude_api_key s
  = (extract_outcome
       (fst (requests_post (extract_request text claude_api_key) (outside s))),
     {| outside := snd (requests_post (extract_request text claude_api_key) (outside s));
        emitted := emitted s;
        search_results := search_results s;
        sent := sent s ++ [POST (extract_request text claude_api_key)] |}).
Proof.
  unfold extract_search_terms, bind, post, extract_outcome.
  destruct (requests_post (extract_request text claude_api_key) (outside s))
    as [[e|response] w]; simpl; [reflexivity|].
  destruct (status_code response =? 200)%Z; [|reflexivity].
  destruct (json response) as [e|result]; simpl; [reflexivity|].
  destruct (content_0_text result) as [e|content]; simpl; [reflexivity|].
  destruct (split_newlines content) as [e|pieces]; reflexivity.
Qed.

Lemma seo_optimize_text_effect (text claude_api_key : str)
    (results : list SearchResult) (s : state) :
  seo_optimize_text text claude_api_key results s
  = (optimize_outcome
       (fst (requests_post (optimize_request text claude_api_key results) (outside s))),
     {| outside := snd (requests_post (optimize_request text claude_api_key results)
                                      (outside s));
        emitted := emitted s;
        search_results := search_results s;
        sent := sent s ++ [POST (optimize_request text claude_api_key results)] |}).
Proof.
  unfold seo_optimize_text, bind, post, optimize_outcome.
  destruct (requests_post (optimize_request text claude_api_key results) (outside s))
    as [[e|response] w]; simpl; [reflexivity|].
  destruct (status_code response =? 200)%Z; [|reflexivity].
  destruct (json response) as [e|result]; simpl; [reflexivity|].
  destruct (content_0_text result); reflexivity.
Qed.

(** A run whose extract step raises: one notification, one failure, one call. *)
Lemma run_extract_fails (text claude_api_key : str) (s : state) (e : exn) :
  extract_outcome
    (fst (requests_post (extract_request text claude_api_key) (outside s))) = inl e ->
  run text claude_api_key s
  = (inr tt,
     {| outside := snd (requests_post (extract_request text claude_api_key) (outside s));
        emitted := emitted s ++ [progress_1; error_occurred (str_exn e)];
        search_results := search_results s;
        sent := sent s ++ [POST (extract_request text claude_api_key)] |}).
Proof.
  intros H. unfold run, run_body, try_except, bind at 1. simpl.
  unfold bind at 1. rewrite extract_search_terms_effect. simpl. rewrite H.
  unfold emit. simpl. now rewrite <- app_assoc.
Qed.

(** A run whose extract step returns: the searches, then the rewrite call on
    what they collected, then exactly one closing signal. *)
Lemma run_extract_returns (text claude_api_key : str) (s : state) (terms : list str) :
  extract_outcome
    (fst (requests_post (extract_request text claude_api_key) (outside s))) = inr terms ->
  let w1 := snd (requests_post (extract_request text claude_api_key) (outside s)) in
  let results := search_results s ++ collected terms w1 in
  let rewrite_call :=
    requests_post (optimize_request text claude_api_key results) (world_after terms w1) in
  run text claude_api_key s
  = (inr tt,
     {| outside := snd rewrite_call;
        emitted := emitted s ++ [progress_1; progress_2] ++ search_events terms w1
                   ++ [progress_3; terminal_event (fst rewrite_call)];
        search_results := results;
        sent := sent s ++ [POST (extract_request text claude_api_key)]
                ++ search_requests terms
                ++ [POST (optimize_request text claude_api_key results)] |}).
Proof.
  intros H w1 results rewrite_call.
  unfold run, run_body, try_except, bind at 1. simpl.
  unfold bind at 1. rewrite extract_search_terms_effect. simpl. rewrite H.
  unfold bind at 1. simpl. unfold bind at 1. rewrite perform_searches_effect. simpl.
  unfold bind at 1. simpl. unfold bind at 1. simpl.
  unfold bind at 1. rewrite seo_optimize_text_effect. simpl.
  fold w1. fold results. fold rewrite_call.
  unfold terminal_event.
  destruct (optimize_outcome (fst rewrite_call)) as [e|v]; simpl.
  - unfold emit. simpl. f_equal. f_equal; repeat rewrite <- app_assoc; reflexivity.
  - unfold emit_finished, delivered.
    destruct v; simpl;
      try (unfold bind, lift; destruct (emit_str _) as [e|x]; simpl);
      unfold emit; simpl; f_equal; f_equal; repeat rewrite <- app_assoc; reflexivity.
Qed.

End RunEffect.

(** ** The extract step *)

Section ExtractStep.
Context {O : Outside}.

(** C1: when the extract call is answered with status 200 and the answer's
    [content[0].text] is the string [content], [extract_search_terms] returns
    the terms obtained by splitting [content] on newlines, trimming every
    piece, dropping the pieces that are empty after trimming and keeping at
    most ten; so there are at most ten terms, each of them trimmed and
    non-empty. The three-line coffee answer gives exactly its three terms. *)
Theorem extract_parses_terms (input claude_api_key : str) (s : state)
    (response : Response) (w : world) (result : value) (content : str) :
  requests_post (extract_request input claude_api_key) (outside s) = (inr response, w) ->
  status_code response = 200%Z ->
  json response = inr result ->
  content_0_text result = inr (JStr content) ->
  fst (extract_search_terms input claude_api_key s) = inr (parse_search_terms content)
  /\ parse_search_terms content = spec_parse_search_terms content
  /\ length (parse_search_terms content) <= 10
  /\ Forall (fun term => term <> [] /\ strip term = term) (parse_search_terms content)
  /\ parse_search_terms coffee_response
     = [lit "organic coffee"; lit "coffee beans"; lit "buy coffee online"]
  /\ length (parse_search_terms coffee_response) = 3.
Proof.
  intros Hpost Hstatus Hjson Hcontent.
  repeat split.
  - rewrite extract_search_terms_effect, Hpost. simpl.
    now rewrite Hstatus, Hjson, Hcontent.
  - apply parse_search_terms_refines.
  - apply parse_search_terms_length.
  - apply terms_of_pieces_trimmed.
Qed.

(** C2: when the extract call is answered with a status other than 200, the
    run ends after one progress notification with a single [error_occurred]
    whose message carries the status code and the response body; the extract
    request is the only network call, so neither a search nor the rewrite
    call is made, and nothing is collected. *)
Theorem extract_failure_ends_run (input claude_api_key : str) (s : state)
    (response : Response) (w : world) :
  requests_post (extract_request input claude_api_key) (outside s) = (inr response, w) ->
  status_code response <> 200%Z ->
  run input claude_api_key s
  = (inr tt,
     {| outside := w;
        emitted := emitted s
                   ++ [ progress_updated (lit "Extracting search terms using Claude...");
                        error_occurred (lit "Claude API error: "
                                        ++ str_of_int (status_code response)
                                        ++ lit " - " ++ text response) ];
        search_results := search_results s;
        sent := sent s ++ [POST (extract_request input claude_api_key)] |}).
Proof.
  intros Hpost Hstatus.
  rewrite (@run_extract_fails _ input claude_api_key s (api_error response)).
  - now rewrite Hpost.
  - rewrite Hpost. simpl.
    destruct (Z.eqb_spec (status_code response) 200); [contradiction|reflexivity].
Qed.

End ExtractStep.

Lemma extract_parses_terms_witness :
  fst (extract_search_terms (O := scripted) coffee_text (lit "key")
         (new_worker (script [inr (ok_json coffee_response)])))
  = inr (parse_search_terms coffee_response)
  /\ parse_search_terms coffee_response = spec_parse_search_terms coffee_response
  /\ length (parse_search_terms coffee_response) <= 10
  /\ Forall (fun term => term <> [] /\ strip term = term)
            (parse_search_terms coffee_response)
  /\ parse_search_terms coffee_response
     = [lit "organic coffee"; lit "coffee beans"; lit "buy coffee online"]
  /\ length (parse_search_terms coffee_response) = 3.
Proof.
  apply (@extract_parses_terms scripted coffee_text (lit "key")
           (new_worker (script [inr (ok_json coffee_response)]))
           (ok_json coffee_response) (script [])
           (JDict [(lit "content", JList [JDict [(lit "text", JStr coffee_response)]])])
           coffee_response);
    reflexivity.
Defined.

Lemma extract_failure_ends_run_witness :
  run (O := scripted) coffee_text (lit "key")
      (new_worker (script [inr (status_only 529 (lit "overloaded"))]))
  = (inr tt,
     {| outside := script [];
        emitted := [ progress_updated (lit "Extracting search terms using Claude...");
                     error_occurred (lit "Claude API error: 529 - overloaded") ];
        search_results := [];
        sent := [POST (extract_request coffee_text (lit "key"))] |}).
Proof.
  apply (@extract_failure_ends_run scripted coffee_text (lit "key")
           (new_worker (script [inr (status_only 529 (lit "overloaded"))]))
           (status_only 529 (lit "overloaded")) (script []));
    [reflexivity | discriminate].
Defined.

(** ** The search step *)

Lemma collect_app (A B : Type) (f : A -> option B) (l1 l2 : list A) :
  collect f (l1 ++ l2) = collect f l1 ++ collect f l2.
Proof.
  induction l1 as [|x l1 IH]; simpl; [reflexivity|].
  destruct (f x); simpl; now rewrite IH.
Qed.

Lemma collect_length (A B : Type) (f : A -> option B) (l : list A) :
  length (collect f l) <= length l.
Proof.
  induction l as [|x l IH]; simpl; [lia|]. destruct (f x); simpl; lia.
Qed.

Lemma collect_In (A B : Type) (f : A -> option B) (l : list A) (y : B) :
  In y (collect f l) -> exists x, In x l /\ f x = Some y.
Proof.
  induction l as [|x l IH]; simpl; [contradiction|].
  destruct (f x) as [z|] eqn:E.
  - intros [<-|H]; [now exists x; auto|].
    destruct (IH H) as [x' [? ?]]. exists x'; auto.
  - intros H. destruct (IH H) as [x' [? ?]]. exists x'; auto.
Qed.

Lemma find_Some (name cls : str) (e found : PageElement) :
  find name cls e = Some found ->
  In found (descendants e) /\ matches name cls found = true.
Proof.
  unfold find, find_all. intros H. apply filter_In. revert H.
  destruct (filter (matches name cls) (descendants e)) as [|x l]; simpl;
    [discriminate|].
  intros H. injection H as ->. now left.
Qed.

Lemma result_of_container_Some (c : PageElement) (r : SearchResult) :
  result_of_container c = Some r ->
  exists title_elem snippet_elem,
    find (lit "a") (lit "result__a") c = Some title_elem
    /\ find (lit "a") (lit "result__snippet") c = Some snippet_elem
    /\ r = {| title := get_text_strip title_elem;
              description := get_text_strip snippet_elem;
              url := get_attr title_elem (lit "href") [] |}.
Proof.
  unfold result_of_container.
  destruct (find (lit "a") (lit "result__a") c) as [t|]; [|discriminate].
  destruct (find (lit "a") (lit "result__snippet") c) as [d|]; [|discriminate].
  intros H. injection H as <-. now exists t, d.
Qed.

Lemma result_of_container_None (c : PageElement) :
  find (lit "a") (lit "result__a") c = None
  \/ find (lit "a") (lit "result__snippet") c = None ->
  result_of_container c = None.
Proof.
  unfold result_of_container. intros [H|H]; rewrite H; [reflexivity|].
  now destruct (find (lit "a") (lit "result__a") c).
Qed.

Section SearchStep.
Context {O : Outside}.

Lemma perform_searches_app (before after : list str) (s : state) :
  perform_searches (before ++ after) s
  = perform_searches after (snd (perform_searches before s)).
Proof.
  unfold perform_searches. revert s.
  induction before as [|term before IH]; intros s; simpl; [reflexivity|].
  erewrite !bind_inr by apply search_turn. apply IH.
Qed.

Lemma perform_searches_cons (term : str) (rest : list str) (s : state) :
  perform_searches (term :: rest) s
  = perform_searches rest
      (snd (try_except (search_term term) (search_error term) s)).
Proof.
  unfold perform_searches. cbn [for_].
  erewrite bind_inr by apply search_turn. now rewrite search_turn.
Qed.

(** C7: when a term's search is answered with status 200 and a parsed page,
    the turn returns normally and appends at most five results, one for each
    of the first five [div.result] containers that holds both an
    [a.result__a] and an [a.result__snippet], made of the stripped text of
    the two and the [href] of the first; a container without one of the two
    adds nothing, and a page without any container adds nothing, with no
    error notification. *)
Theorem page_gives_at_most_five (term : str) (s : state) (response : Response)
    (w : world) (page : PageElement) :
  requests_get (search_request term) (outside s) = (inr response, w) ->
  status_code response = 200%Z ->
  soup response = inr page ->
  search_term term s
  = (inr tt,
     {| outside := w;
        emitted := emitted s ++ [progress_updated (lit "Searching for: " ++ term)];
        search_results := search_results s ++ page_results page;
        sent := sent s ++ [GET (search_request term)] |})
  /\ length (page_results page) <= 5
  /\ (forall r, In r (page_results page) ->
        exists c title_elem snippet_elem,
          In c (firstn 5 (find_all (lit "div") (lit "result") page))
          /\ find (lit "a") (lit "result__a") c = Some title_elem
          /\ find (lit "a") (lit "result__snippet") c = Some snippet_elem
          /\ r = {| title := get_text_strip title_elem;
                    description := get_text_strip snippet_elem;
                    url := get_attr title_elem (lit "href") [] |}
          /\ (In c (descendants page)
              /\ matches (lit "div") (lit "result") c = true)
          /\ (In title_elem (descendants c)
              /\ matches (lit "a") (lit "result__a") title_elem = true)
          /\ (In snippet_elem (descendants c)
              /\ matches (lit "a") (lit "result__snippet") snippet_elem = true))
  /\ (forall before c after,
        firstn 5 (find_all (lit "div") (lit "result") page) = before ++ c :: after ->
        find (lit "a") (lit "result__a") c = None
        \/ find (lit "a") (lit "result__snippet") c = None ->
        page_results page
        = collect result_of_container before ++ collect result_of_container after)
  /\ (find_all (lit "div") (lit "result") page = [] -> page_results page = []).
Proof.
  intros Hget Hstatus Hsoup. split; [|split; [|split; [|split]]].
  - unfold search_term, bind, emit, get. simpl. rewrite Hget, Hstatus. simpl.
    rewrite Hsoup. simpl. now rewrite containers_loop.
  - unfold page_results, result_containers.
    etransitivity; [apply collect_length|]. apply firstn_le_length.
  - intros r Hr. apply collect_In in Hr. destruct Hr as [c [Hc Hr]].
    apply result_of_container_Some in Hr.
    destruct Hr as [t [d [Ht [Hd ->]]]]. exists c, t, d.
    repeat split; auto.
    + apply In_firstn_In in Hc. now apply filter_In in Hc.
    + apply In_firstn_In in Hc. now apply filter_In in Hc.
    + now apply find_Some in Ht.
    + now apply find_Some in Ht.
    + now apply find_Some in Hd.
    + now apply find_Some in Hd.
  - intros before c after Hsplit Hmissing.
    unfold page_results, result_containers. rewrite Hsplit, collect_app. simpl.
    now rewrite (result_of_container_None c Hmissing).
  - unfold page_results, result_containers. now intros ->.
Qed.

(** C10: when a term's search is answered, without raising, with a status
    other than 200, its turn returns normally having emitted only the
    notification that precedes the request, appends no result, and the loop
    goes on with the next term. *)
Theorem non_success_search_is_silent (term : str) (rest : list str) (s : state)
    (response : Response) (w : world) :
  requests_get (search_request term) (outside s) = (inr response, w) ->
  status_code response <> 200%Z ->
  let s' := {| outside := w;
               emitted := emitted s ++ [progress_updated (lit "Searching for: " ++ term)];
               search_results := search_results s;
               sent := sent s ++ [GET (search_request term)] |} in
  search_term term s = (inr tt, s')
  /\ perform_searches (term :: rest) s = perform_searches rest s'
  /\ fst (perform_searches (term :: rest) s) = inr tt.
Proof.
  intros Hget Hstatus s'.
  assert (Hturn : search_term term s = (inr tt, s')).
  { unfold search_term, bind, emit, get. simpl. rewrite Hget. simpl.
    destruct (Z.eqb_spec (status_code response) 200); [contradiction|reflexivity]. }
  repeat split.
  - exact Hturn.
  - rewrite perform_searches_cons. now erewrite try_inr by exact Hturn.
  - now rewrite perform_searches_effect.
Qed.

End SearchStep.

(** ** The run as a whole *)

Section WholeRun.
Context {O : Outside}.

Lemma extract_returned (input claude_api_key : str) (s s1 : state) (terms : list str) :
  extract_search_terms input claude_api_key (snd (emit progress_1 s)) = (inr terms, s1) ->
  extract_outcome
    (fst (requests_post (extract_request input claude_api_key) (outside s))) = inr terms
  /\ s1 = {| outside := snd (requests_post (extract_request input claude_api_key)
                                           (outside s));
             emitted := emitted s ++ [progress_1];
             search_results := search_results s;
             sent := sent s ++ [POST (extract_request input claude_api_key)] |}.
Proof.
  rewrite extract_search_terms_effect. simpl. intros H.
  injection H as H1 H2. now split.
Qed.

(** C3: once the extract step has returned its terms, the search step always
    returns: a term whose request raises has the exception caught and
    reported as a progress notification, adds no result, and the loop goes on
    with the terms after it; the results collected are those of the answered
    terms only, and the run goes on to the rewrite call with exactly these
    results. *)
Theorem search_failure_is_not_fatal (input claude_api_key : str) (s s1 : state)
    (terms : list str) :
  extract_search_terms input claude_api_key (snd (emit progress_1 s)) = (inr terms, s1) ->
  let start := snd (emit progress_2 s1) in
  let s2 := snd (perform_searches terms start) in
  fst (perform_searches terms start) = inr tt
  /\ (forall before term after e w,
        terms = before ++ term :: after ->
        let sb := snd (perform_searches before start) in
        requests_get (search_request term) (outside sb) = (inl e, w) ->
        perform_searches terms start
        = perform_searches after
            {| outside := w;
               emitted := emitted sb
                          ++ [ progress_updated (lit "Searching for: " ++ term);
                               progress_updated (lit "Search error for '" ++ term
                                                 ++ lit "': " ++ str_exn e) ];
               search_results := search_results sb;
               sent := sent sb ++ [GET (search_request term)] |})
  /\ search_results s2
     = search_results s ++ flat_map term_results (answers terms (outside s1))
  /\ (forall e, term_results (inl e) = [])
  /\ exists closing w3,
       run input claude_api_key s
       = (inr tt,
          {| outside := w3;
             emitted := emitted s2
                        ++ [ progress_updated (lit "Optimizing content with Claude...");
                             closing ];
             search_results := search_results s2;
             sent := sent s2
                     ++ [POST (optimize_request input claude_api_key
                                                (search_results s2))] |}).
Proof.
  intros H start s2. apply extract_returned in H. destruct H as [Hout Hs1].
  split; [|split; [|split; [|split]]].
  - now rewrite perform_searches_effect.
  - intros before term after e w -> sb Hget.
    rewrite perform_searches_app, perform_searches_cons, search_turn.
    fold sb. rewrite Hget.
    cbn [fst snd term_events term_failure term_results]. unfold error_notice.
    now rewrite app_nil_r.
  - unfold s2, start. rewrite perform_searches_effect, Hs1. reflexivity.
  - reflexivity.
  - rewrite (run_extract_returns _ _ _ Hout).
    unfold s2, start. rewrite perform_searches_effect, Hs1. simpl.
    do 2 eexists. f_equal. f_equal.
    + repeat rewrite <- app_assoc. reflexivity.
    + repeat rewrite <- app_assoc. reflexivity.
Qed.

(** C5: when the worker starts fresh, the extract step returns its terms, the
    searches collect no result at all, and the rewrite call is answered with
    status 200 and [content[0].text] the string [answer], the rewrite request
    is sent with an empty context block and the run ends with the single
    signal [finished answer], the answer unchanged. *)
Theorem no_results_still_rewrites (input claude_api_key : str) (w w3 : world)
    (s1 : state) (terms : list str) (response : Response) (result : value)
    (answer : str) :
  extract_search_terms input claude_api_key (snd (emit progress_1 (new_worker w)))
  = (inr terms, s1) ->
  let s2 := snd (perform_searches terms (snd (emit progress_2 s1))) in
  search_results s2 = [] ->
  requests_post (optimize_request input claude_api_key []) (outside s2)
  = (inr response, w3) ->
  status_code response = 200%Z ->
  json response = inr result ->
  content_0_text result = inr (JStr answer) ->
  search_context [] = []
  /\ post_json (optimize_request input claude_api_key [])
     = api_data 2000 (optimize_prompt input [])
  /\ run input claude_api_key (new_worker w)
     = (inr tt,
        {| outside := w3;
           emitted := emitted s2
                      ++ [ progress_updated (lit "Optimizing content with Claude...");
                           finished answer ];
           search_results := [];
           sent := sent s2 ++ [POST (optimize_request input claude_api_key [])] |}).
Proof.
  intros H s2 Hnone Hpost Hstatus Hjson Htext.
  apply extract_returned in H. destruct H as [Hout Hs1].
  split; [reflexivity|split; [reflexivity|]].
  rewrite (run_extract_returns _ _ _ Hout).
  revert Hnone Hpost. unfold s2.
  rewrite perform_searches_effect, Hs1. simpl. intros Hnone Hpost.
  rewrite Hnone, Hpost. unfold terminal_event. simpl.
  rewrite Hstatus, Hjson, Htext. simpl.
  repeat rewrite <- app_assoc. reflexivity.
Qed.

Lemma search_events_progress (terms : list str) (w : world) :
  Forall is_progress (search_events terms w).
Proof.
  unfold search_events. revert w.
  induction terms as [|term terms IH]; intros w; simpl; [constructor|].
  unfold term_events at 1. simpl. constructor; [exact I|].
  apply Forall_app. split; [|apply IH].
  destruct (term_failure _); repeat constructor.
Qed.

(** C8: every run returns, and what it emits is a sequence of progress
    notifications followed by exactly one closing signal, which is either
    [finished] with a text or [error_occurred] with a message; nothing is
    emitted after it. *)
Theorem run_emits_one_terminal (input claude_api_key : str) (s : state) :
  exists notices closing,
    fst (run input claude_api_key s) = inr tt
    /\ emitted (snd (run input claude_api_key s)) = emitted s ++ notices ++ [closing]
    /\ Forall is_progress notices
    /\ ((exists optimized_text, closing = finished optimized_text)
        \/ (exists message, closing = error_occurred message)).
Proof.
  destruct (extract_outcome
              (fst (requests_post (extract_request input claude_api_key) (outside s))))
    as [e|terms] eqn:Hout.
  - exists [progress_1], (error_occurred (str_exn e)).
    rewrite (run_extract_fails _ _ _ Hout). simpl.
    repeat split; [repeat constructor|right; now eexists].
  - rewrite (run_extract_returns _ _ _ Hout). simpl.
    eexists ([progress_1; progress_2] ++ search_events terms _ ++ [progress_3]).
    eexists. split; [reflexivity|]. split; [|split].
    + repeat rewrite <- app_assoc. reflexivity.
    + repeat constructor. apply Forall_app. split;
        [apply search_events_progress|repeat constructor].
    + unfold terminal_event.
      destruct (optimize_outcome _) as [e|v]; [right; now eexists|].
      destruct (delivered v) as [e|t]; [right|left]; now eexists.
Qed.

(** C4: the context block of the rewrite request is the entries
    [Title: ..., Description: ...] of the first twenty collected results, in
    order, joined by newlines; results past the twentieth change neither the
    block nor the request sent. *)
Theorem context_is_first_twenty (input claude_api_key : str)
    (results : list SearchResult) (s : state) :
  search_context results
  = join [nl] (map (fun r => lit "Title: " ++ title r ++ [nl]
                             ++ lit "Description: " ++ description r ++ [nl])
                   (firstn 20 results))
  /\ length (firstn 20 results) <= 20
  /\ search_context results = search_context (firstn 20 results)
  /\ (forall others, firstn 20 others = firstn 20 results ->
        seo_optimize_text input claude_api_key others s
        = seo_optimize_text input claude_api_key results s)
  /\ sent (snd (seo_optimize_text input claude_api_key results s))
     = sent s
       ++ [POST {| post_url := lit "https://api.anthropic.com/v1/messages";
                   post_headers := api_headers claude_api_key;
                   post_json :=
                     api_data 2000
                       (optimize_prompt input (search_context (firstn 20 results))) |}].
Proof.
  assert (Hfirst : forall l, search_context l = search_context (firstn 20 l)).
  { intros l. unfold search_context. now rewrite firstn_firstn. }
  split; [reflexivity|]. split; [apply firstn_le_length|].
  split; [apply Hfirst|]. split.
  - intros others Heq.
    assert (Hreq : optimize_request input claude_api_key others
                   = optimize_request input claude_api_key results).
    { unfold optimize_request.
      now rewrite (Hfirst others), (Hfirst results), Heq. }
    rewrite !seo_optimize_text_effect. now rewrite Hreq.
  - rewrite seo_optimize_text_effect. cbn [snd sent]. unfold optimize_request.
    now rewrite <- Hfirst.
Qed.

End WholeRun.

(** ** The window *)

Section Window.
Context {O : Outside}.

(** C6: when the input text or the credential is empty once trimmed (empty or
    whitespace only), [start_processing] shows a warning, leaves the window
    otherwise as it was and starts no worker; pressing the button makes no
    network call and leaves the world untouched. *)
Theorem empty_input_is_rejected (app : App) (w : world) :
  strip (input_text app) = [] \/ strip (api_key_input app) = [] ->
  snd (start_processing app) = None
  /\ (exists message,
        fst (start_processing app) = show (warning (lit "Warning") message) app)
  /\ process_clicked app w = (fst (start_processing app), w, []).
Proof.
  intros H. unfold process_clicked, start_processing.
  destruct (strip (input_text app)) as [|c r] eqn:Etext; simpl.
  - split; [reflexivity|]. split; [now eexists|reflexivity].
  - destruct H as [H|H]; [discriminate|]. rewrite H. simpl.
    split; [reflexivity|]. split; [now eexists|reflexivity].
Qed.

End Window.

(** ** The search request *)

Lemma replace_space_plus_encodes (term : str) :
  forallb (fun c => (c =? space)%N || unreserved c) term = true ->
  replace_space_plus term = spec_url_encode term.
Proof.
  unfold replace_space_plus, spec_url_encode.
  induction term as [|c term IH]; simpl; [reflexivity|].
  intros H. apply andb_prop in H. destruct H as [Hc Hrest].
  rewrite (IH Hrest). destruct (c =? space)%N; [reflexivity|].
  simpl in Hc. now rewrite Hc.
Qed.

Section SearchRequest.
Context {O : Outside}.

(** C9 (as amended): the request of a term is a GET of
    [https://duckduckgo.com/html/?q=] followed by the term with every space
    replaced by [+] and every other character left as it is; no escape is
    applied. For a term made of letters, digits, [_ . - ~] and spaces only,
    this is the URL-encoded term. *)
Theorem search_url_replaces_spaces (term : str) (s : state) :
  sent (snd (perform_searches [term] s))
  = sent s
    ++ [GET {| get_url := lit "https://duckduckgo.com/html/?q="
                          ++ map (fun c => if (c =? 32)%N then 43%N else c) term;
               get_headers := search_headers;
               get_timeout := 10 |}]
  /\ length (replace_space_plus term) = length term
  /\ (forall i, nth_error (replace_space_plus term) i
                = option_map (fun c => if (c =? space)%N then plus else c)
                             (nth_error term i))
  /\ (forallb (fun c => (c =? space)%N || unreserved c) term = true ->
      search_url term = search_prefix ++ spec_url_encode term).
Proof.
  split; [|split; [|split]].
  - now rewrite perform_searches_effect.
  - unfold replace_space_plus. apply length_map.
  - intros i. unfold replace_space_plus. apply nth_error_map.
  - intros H. unfold search_url. now rewrite replace_space_plus_encodes.
Qed.

End SearchRequest.

(** C9, as the specification words it, fails: the URL built for the term
    [R&D jobs] holds the [&] as it is, so the URL-encoded term, which writes
    it [%26], occurs nowhere in it. *)
Lemma search_url_not_encoded :
  ~ exists before after,
      get_url (search_request (lit "R&D jobs"))
      = before ++ spec_url_encode (lit "R&D jobs") ++ after.
Proof.
  intros [before [after H]].
  assert (Hin : In 37%N (get_url (search_request (lit "R&D jobs")))).
  { rewrite H. apply in_or_app. right. apply in_or_app. left.
    vm_compute. tauto. }
  vm_compute in Hin.
  repeat (destruct Hin as [Hin|Hin]; [discriminate Hin|]). exact Hin.
Qed.

(** ** The theorems at work on scripted worlds *)

Lemma search_failure_is_not_fatal_witness :
  fst (perform_searches (O := scripted) coffee_terms
         (snd (emit progress_2
                 (snd (extract_search_terms coffee_text (lit "key")
                         (snd (emit progress_1 (new_worker one_search_fails))))))))
  = inr tt
  /\ exists closing w3,
       run (O := scripted) coffee_text (lit "key") (new_worker one_search_fails)
       = (inr tt,
          {| outside := w3;
             emitted :=
               [ progress_1; progress_2;
                 progress_updated (lit "Searching for: organic coffee");
                 progress_updated (lit "Searching for: coffee beans");
                 progress_updated (lit "Search error for 'coffee beans': timed out");
                 progress_updated (lit "Searching for: buy coffee online");
                 progress_3; closing ];
             search_results := [coffee_result 1; coffee_result 3];
             sent :=
               [POST (extract_request coffee_text (lit "key"))]
               ++ search_requests coffee_terms
               ++ [POST (optimize_request coffee_text (lit "key")
                                          [coffee_result 1; coffee_result 3])] |}).
Proof.
  destruct (@search_failure_is_not_fatal scripted coffee_text (lit "key")
              (new_worker one_search_fails)
              (snd (extract_search_terms coffee_text (lit "key")
                      (snd (emit progress_1 (new_worker one_search_fails)))))
              coffee_terms eq_refl)
    as (Hreturns & _ & _ & _ & closing & w3 & Hrun).
  split; [exact Hreturns|]. exists closing, w3. exact Hrun.
Defined.

Lemma no_results_still_rewrites_witness :
  run (O := scripted) coffee_text (lit "key") (new_worker all_searches_fail)
  = (inr tt,
     {| outside := script [];
        emitted :=
          [ progress_1; progress_2;
            progress_updated (lit "Searching for: organic coffee");
            progress_updated (lit "Search error for 'organic coffee': timed out");
            progress_updated (lit "Searching for: coffee beans");
            progress_updated (lit "Search error for 'coffee beans': timed out");
            progress_updated (lit "Searching for: buy coffee online");
            progress_updated (lit "Search error for 'buy coffee online': timed out");
            progress_3; finished (lit "Better coffee") ];
        search_results := [];
        sent :=
          [POST (extract_request coffee_text (lit "key"))]
          ++ search_requests coffee_terms
          ++ [POST (optimize_request coffee_text (lit "key") [])] |}).
Proof.
  destruct (@no_results_still_rewrites scripted coffee_text (lit "key")
              all_searches_fail (script [])
              (snd (extract_search_terms coffee_text (lit "key")
                      (snd (emit progress_1 (new_worker all_searches_fail)))))
              coffee_terms (ok_json (lit "Better coffee"))
              (JDict [(lit "content", JList [JDict [(lit "text", JStr (lit "Better coffee"))]])])
              (lit "Better coffee")
              eq_refl eq_refl eq_refl eq_refl eq_refl eq_refl)
    as (_ & _ & Hrun).
  exact Hrun.
Defined.

Lemma page_gives_at_most_five_witness :
  search_term (O := scripted) (lit "coffee beans")
    (new_worker (script [inr crowded_answer]))
  = (inr tt,
     {| outside := script [];
        emitted := [progress_updated (lit "Searching for: coffee beans")];
        search_results := [ coffee_result 1; coffee_result 3;
                            coffee_result 4; coffee_result 5 ];
        sent := [GET (search_request (lit "coffee beans"))] |})
  /\ length (page_results crowded_page) <= 5.
Proof.
  destruct (@page_gives_at_most_five scripted (lit "coffee beans")
              (new_worker (script [inr crowded_answer]))
              crowded_answer (script []) crowded_page
              eq_refl eq_refl eq_refl)
    as (Hturn & Hfive & _).
  split; [exact Hturn|exact Hfive].
Defined.

Lemma non_success_search_is_silent_witness :
  perform_searches (O := scripted) [lit "organic coffee"; lit "coffee beans"]
    (new_worker (script [inr (status_only 503 (lit "busy"));
                         inr (ok_page [full_container 2])]))
  = perform_searches (O := scripted) [lit "coffee beans"]
      {| outside := script [inr (ok_page [full_container 2])];
         emitted := [progress_updated (lit "Searching for: organic coffee")];
         search_results := [];
         sent := [GET (search_request (lit "organic coffee"))] |}.
Proof.
  destruct (@non_success_search_is_silent scripted (lit "organic coffee")
              [lit "coffee beans"]
              (new_worker (script [inr (status_only 503 (lit "busy"));
                                   inr (ok_page [full_container 2])]))
              (status_only 503 (lit "busy"))
              (script [inr (ok_page [full_container 2])])
              eq_refl ltac:(discriminate))
    as (_ & Hloop & _).
  exact Hloop.
Defined.

Lemma context_is_first_twenty_witness :
  seo_optimize_text (O := scripted) coffee_text (lit "key")
    (repeat (coffee_result 1) 20 ++ [coffee_result 2])
    (new_worker (script [inr (ok_json (lit "Better coffee"))]))
  = seo_optimize_text (O := scripted) coffee_text (lit "key")
      (repeat (coffee_result 1) 20)
      (new_worker (script [inr (ok_json (lit "Better coffee"))])).
Proof.
  destruct (@context_is_first_twenty scripted coffee_text (lit "key")
              (repeat (coffee_result 1) 20)
              (new_worker (script [inr (ok_json (lit "Better coffee"))])))
    as (_ & _ & _ & Hsame & _).
  apply Hsame. reflexivity.
Defined.

Lemma empty_input_is_rejected_witness :
  snd (start_processing (blank_window (lit "   ") (lit "key"))) = None
  /\ process_clicked (O := scripted) (blank_window (lit "   ") (lit "key"))
       one_search_fails
     = (show (warning (lit "Warning") (lit "Please enter text to optimize."))
             (blank_window (lit "   ") (lit "key")),
        one_search_fails, []).
Proof.
  destruct (@empty_input_is_rejected scripted (blank_window (lit "   ") (lit "key"))
              one_search_fails (or_introl eq_refl))
    as (Hnone & _ & Hclick).
  split; [exact Hnone|exact Hclick].
Defined.

Lemma search_url_replaces_spaces_witness :
  search_url (lit "buy coffee online")
  = lit "https://duckduckgo.com/html/?q=buy+coffee+online"
  /\ search_url (lit "buy coffee online")
     = search_prefix ++ spec_url_encode (lit "buy coffee online").
Proof.
  destruct (@search_url_replaces_spaces scripted (lit "buy coffee online")
              (new_worker (script [])))
    as (_ & _ & _ & Hencoded).
  split; [reflexivity|]. apply Hencoded. reflexivity.
Defined.

(** ** Fonts *)

Lemma str_eqb_eq (a b : str) : str_eqb a b = true <-> a = b.
Proof.
  unfold str_eqb. destruct (list_eq_dec N.eq_dec a b); split; auto; discriminate.
Qed.

Lemma contains_In (l : list str) (x : str) : contains l x = true <-> In x l.
Proof.
  unfold contains. rewrite existsb_exists. split.
  - intros [y [Hy E]]. apply str_eqb_eq in E. now subst.
  - intros H. exists x. split; [exact H|now apply str_eqb_eq].
Qed.

Lemma contains_not_In (l : list str) (x : str) : contains l x = false <-> ~ In x l.
Proof.
  rewrite <- contains_In. destruct (contains l x); split; auto; try discriminate.
  intros H. now contradiction H.
Qed.

Lemma first_available_cases (preferences available_fonts : list str) :
  (exists before after,
      preferences = before ++ first_available preferences available_fonts :: after
      /\ (forall font, In font before -> ~ In font available_fonts)
      /\ In (first_available preferences available_fonts) available_fonts)
  \/ ((forall font, In font preferences -> ~ In font available_fonts)
      /\ first_available preferences available_fonts = lit "Arial").
Proof.
  induction preferences as [|font rest IH]; simpl.
  - right. split; [intros ? []|reflexivity].
  - destruct (contains available_fonts font) eqn:E.
    + left. exists [], rest. split; [reflexivity|]. split; [intros ? []|].
      now apply contains_In.
    + apply contains_not_In in E.
      destruct IH as [[before [after [Hsplit [Hbefore Hin]]]]|[Hnone Harial]].
      * left. exists (font :: before), after. split; [simpl; now rewrite <- Hsplit|].
        split; [|exact Hin]. intros f [<-|Hf]; auto.
      * right. split; [|exact Harial]. intros f [<-|Hf]; auto.
Qed.

Lemma best_font_preferred (available_fonts : list str) :
  In (get_best_available_font available_fonts) preferred_fonts.
Proof.
  unfold get_best_available_font.
  destruct (first_available_cases preferred_fonts available_fonts)
    as [[before [after [Hsplit _]]]|[_ Harial]].
  - rewrite Hsplit at 2. apply in_or_app. right. now left.
  - rewrite Harial. unfold preferred_fonts. simpl. tauto.
Qed.

(** X1: [get_best_available_font] always answers one of the six preferred
    fonts: the first of them, in the order of preference, that is installed,
    and [Arial] when none of them is, whether or not [Arial] is installed. *)
Theorem best_font_is_first_available (available_fonts : list str) :
  In (get_best_available_font available_fonts) preferred_fonts
  /\ ((exists before after,
          preferred_fonts = before ++ get_best_available_font available_fonts :: after
          /\ Forall (fun font => ~ In font available_fonts) before
          /\ In (get_best_available_font available_fonts) available_fonts)
      \/ (Forall (fun font => ~ In font available_fonts) preferred_fonts
          /\ get_best_available_font available_fonts = lit "Arial")).
Proof.
  split; [apply best_font_preferred|].
  unfold get_best_available_font.
  destruct (first_available_cases preferred_fonts available_fonts)
    as [[before [after [Hsplit [Hbefore Hin]]]]|[Hnone Harial]].
  - left. exists before, after. split; [exact Hsplit|].
    split; [now apply Forall_forall|exact Hin].
  - right. split; [now apply Forall_forall|exact Harial].
Qed.



(** ** The credential store *)

Section KeyStoreProperties.
Context {K : Keyring}.

(** X3: [save_api_key] answers every press with exactly one box and never
    touches the window or the load button, whatever the store does; and on a
    key field that is empty once trimmed that box is the warning and nothing
    else happens: the store is not called, the save button and the timers
    stay as they were. *)
Theorem save_rejects_blank_key (p : Panel) (v : vault) :
  (exists b, boxes (fst (save_api_key p v)) = boxes p ++ [b])
  /\ window (fst (save_api_key p v)) = window p
  /\ load_key_btn_text (fst (save_api_key p v)) = load_key_btn_text p
  /\ load_key_btn_enabled (fst (save_api_key p v)) = load_key_btn_enabled p
  /\ (strip (api_key_input (window p)) = [] ->
      save_api_key p v
      = (show_box (plain (warning (lit "Warning")
                                  (lit "Please enter an API key before saving."))) p,
         v)).
Proof.
  unfold save_api_key.
  destruct (strip (api_key_input (window p))) as [|c r]; simpl.
  - split; [now eexists|]. now repeat split.
  - destruct (set_password service_name account_name (c :: r) v) as [[e|u] v'];
      simpl; (split; [now eexists|]); repeat split; discriminate.
Qed.

(** X4: when the store raises on [set_password], [save_api_key] reports it in
    an error box carrying the exception's text; the save button keeps its
    label and state, no timer is armed and no success box is shown. *)
Theorem save_failure_is_reported (p : Panel) (v v' : vault) (e : exn) :
  strip (api_key_input (window p)) <> [] ->
  set_password service_name account_name (strip (api_key_input (window p))) v
  = (inl e, v') ->
  let p' := fst (save_api_key p v) in
  boxes p' = boxes p ++ [plain (critical (lit "Error")
                                         (lit "Failed to save API key:" ++ [nl]
                                          ++ str_exn e))]
  /\ save_key_btn_text p' = save_key_btn_text p
  /\ save_key_btn_enabled p' = save_key_btn_enabled p
  /\ timers p' = timers p
  /\ window p' = window p
  /\ snd (save_api_key p v) = v'.
Proof.
  intros Hkey Hset. unfold save_api_key.
  destruct (strip (api_key_input (window p))) as [|c r]; [contradiction|].
  simpl. rewrite Hset. simpl. repeat split.
Qed.

(** X5: when the store accepts the key, [save_api_key] has stored the trimmed
    key under the fixed service and account, shows the success box, disables
    the save button under the label [Saved] with a check mark, and arms one
    two-second timer; when that timer fires, the button has its former label
    again and is enabled. *)
Theorem save_then_timer_restores_button (p : Panel) (v v' : vault) :
  strip (api_key_input (window p)) <> [] ->
  set_password (lit "seo_optimizer") (lit "claude_api_key")
               (strip (api_key_input (window p))) v
  = (inr tt, v') ->
  let p' := fst (save_api_key p v) in
  snd (save_api_key p v) = v'
  /\ boxes p' = boxes p ++ [information (lit "Success") (lit "API key saved securely!")]
  /\ save_key_btn_text p' = lit "Saved " ++ [check_mark]
  /\ save_key_btn_enabled p' = false
  /\ timers p' = timers p ++ [(2000%Z, reset_save_button (save_key_btn_text p))]
  /\ save_key_btn_text (fire (reset_save_button (save_key_btn_text p)) p')
     = save_key_btn_text p
  /\ save_key_btn_enabled (fire (reset_save_button (save_key_btn_text p)) p') = true
  /\ window p' = window p.
Proof.
  intros Hkey Hset. unfold save_api_key.
  destruct (strip (api_key_input (window p))) as [|c r]; [contradiction|].
  simpl. change (lit "seo_optimizer") with service_name in Hset.
  change (lit "claude_api_key") with account_name in Hset.
  rewrite Hset. simpl. repeat split.
Qed.

(** X6: [load_api_key(show_message=False)], the call made at start-up, never
    shows a box: not when a key is found, not when none is, not when the
    store raises. *)
Theorem silent_load_shows_nothing (p : Panel) (v : vault) :
  boxes (fst (load_api_key false p v)) = boxes p.
Proof.
  unfold load_api_key.
  destruct (get_password service_name account_name v) as [[e|[[|c r]|]] v'];
    reflexivity.
Qed.

(** X7: unless the store answers a non-empty key, [load_api_key] leaves the
    key field, the whole window, both buttons and the timers as they were,
    whether the store raised, answered [None] or answered an empty string. *)
Theorem load_without_key_changes_nothing (show_message : bool) (p : Panel)
    (v : vault) :
  (forall c r v', get_password service_name account_name v
                  <> (inr (Some (c :: r)), v')) ->
  let p' := fst (load_api_key show_message p v) in
  window p' = window p
  /\ load_key_btn_text p' = load_key_btn_text p
  /\ load_key_btn_enabled p' = load_key_btn_enabled p
  /\ save_key_btn_text p' = save_key_btn_text p
  /\ save_key_btn_enabled p' = save_key_btn_enabled p
  /\ timers p' = timers p.
Proof.
  intros Hnone. unfold load_api_key.
  destruct (get_password service_name account_name v) as [[e|[[|c r]|]] v'];
    try (exfalso; now apply (Hnone c r v'));
    destruct show_message; simpl; repeat split.
Qed.

(** X8: saving and then loading gives the key back trimmed. If the store
    accepts the trimmed key and answers it on the next [get_password], the
    key field afterwards holds the trimmed key, and [start_processing] on a
    non-blank text starts its worker with exactly that key. *)
Theorem save_then_load_round_trip (show_message : bool) (p : Panel)
    (v v1 v2 : vault) :
  strip (api_key_input (window p)) <> [] ->
  strip (input_text (window p)) <> [] ->
  set_password service_name account_name (strip (api_key_input (window p))) v
  = (inr tt, v1) ->
  get_password service_name account_name v1
  = (inr (Some (strip (api_key_input (window p)))), v2) ->
  let saved := save_api_key p v in
  let loaded := load_api_key show_message (fst saved) (snd saved) in
  api_key_input (window (fst loaded)) = strip (api_key_input (window p))
  /\ snd loaded = v2
  /\ snd (start_processing (window (fst loaded)))
     = Some (strip (input_text (window p)), strip (api_key_input (window p))).
Proof.
  intros Hkey Htext Hset Hget saved loaded.
  assert (Hsaved : snd saved = v1 /\ window (fst saved) = window p).
  { unfold saved, save_api_key.
    destruct (strip (api_key_input (window p))) as [|c r]; [contradiction|].
    simpl. rewrite Hset. now split. }
  destruct Hsaved as [Hv1 Hwindow].
  assert (Hloaded : snd loaded = v2
                    /\ window (fst loaded)
                       = window (set_api_key_input (strip (api_key_input (window p)))
                                                   (fst saved))).
  { unfold loaded, load_api_key. rewrite Hv1, Hget.
    destruct (strip (api_key_input (window p))) as [|c r]; [contradiction|].
    destruct show_message; now split. }
  destruct Hloaded as [Hv2 Hfield].
  split; [now rewrite Hfield|]. split; [exact Hv2|].
  rewrite Hfield. unfold start_processing. simpl. rewrite Hwindow.
  rewrite strip_idempotent.
  destruct (strip (input_text (window p))); [contradiction|].
  destruct (strip (api_key_input (window p))); [contradiction|]. reflexivity.
Qed.

End KeyStoreProperties.

Lemma save_rejects_blank_key_witness :
  save_api_key (K := locked_keyring) (blank_panel coffee_text (lit "  ")) tt
  = (show_box (plain (warning (lit "Warning")
                              (lit "Please enter an API key before saving.")))
              (blank_panel coffee_text (lit "  ")),
     tt).
Proof.
  destruct (@save_rejects_blank_key locked_keyring (blank_panel coffee_text (lit "  ")) tt)
    as (_ & _ & _ & _ & Hblank).
  apply Hblank. reflexivity.
Defined.

Lemma save_failure_is_reported_witness :
  boxes (fst (save_api_key (K := locked_keyring)
                (blank_panel coffee_text (lit " key ")) tt))
  = [plain (critical (lit "Error")
                     (lit "Failed to save API key:" ++ [nl] ++ lit "keyring is locked"))].
Proof.
  destruct (@save_failure_is_reported locked_keyring
              (blank_panel coffee_text (lit " key ")) tt tt
              (LibraryError (lit "keyring is locked"))
              ltac:(discriminate) eq_refl)
    as (Hboxes & _).
  exact Hboxes.
Defined.

Lemma save_then_timer_restores_button_witness :
  snd (save_api_key (K := memory_keyring) (blank_panel coffee_text (lit " key ")) [])
  = [((lit "seo_optimizer", lit "claude_api_key"), lit "key")]
  /\ save_key_btn_text
       (fire (reset_save_button (lit "Save Key"))
             (fst (save_api_key (K := memory_keyring)
                     (blank_panel coffee_text (lit " key ")) [])))
     = lit "Save Key".
Proof.
  destruct (@save_then_timer_restores_button memory_keyring
              (blank_panel coffee_text (lit " key ")) []
              [((lit "seo_optimizer", lit "claude_api_key"), lit "key")]
              ltac:(discriminate) eq_refl)
    as (Hstore & _ & _ & _ & _ & Htext & _).
  split; [exact Hstore|exact Htext].
Defined.

Lemma load_without_key_changes_nothing_witness :
  window (fst (load_api_key (K := locked_keyring) true
                 (blank_panel coffee_text (lit "typed")) tt))
  = blank_window coffee_text (lit "typed").
Proof.
  destruct (@load_without_key_changes_nothing locked_keyring true
              (blank_panel coffee_text (lit "typed")) tt
              ltac:(intros c r v'; discriminate))
    as (Hwindow & _).
  exact Hwindow.
Defined.

Lemma save_then_load_round_trip_witness :
  api_key_input
    (window (fst (load_api_key (K := memory_keyring) false
                    (fst (save_api_key (K := memory_keyring)
                            (blank_panel coffee_text (lit " key ")) []))
                    (snd (save_api_key (K := memory_keyring)
                            (blank_panel coffee_text (lit " key ")) [])))))
  = lit "key".
Proof.
  destruct (@save_then_load_round_trip memory_keyring false
              (blank_panel coffee_text (lit " key ")) []
              [((lit "seo_optimizer", lit "claude_api_key"), lit "key")]
              [((lit "seo_optimizer", lit "claude_api_key"), lit "key")]
              ltac:(discriminate) ltac:(discriminate) eq_refl eq_refl)
    as (Hfield & _).
  exact Hfield.
Defined.

(** ** The window and its worker *)

Lemma deliver_notices (notices : list event) (app : App) :
  Forall is_progress notices ->
  fold_left deliver notices app = app
  \/ exists message, fold_left deliver notices app = set_status message app.
Proof.
  intros H. revert app. induction H as [|ev notices Hev _ IH]; intros app; simpl.
  - now left.
  - destruct ev as [message| |]; try contradiction. simpl. right.
    destruct (IH (set_status message app)) as [E|[m E]]; rewrite E;
      [now exists message|now exists m].
Qed.

Section WindowAndWorker.
Context {O : Outside}.

Lemma extract_outcome_length (answer : exn + Response) (terms : list str) :
  extract_outcome answer = inr terms -> length terms <= 10.
Proof.
  unfold extract_outcome. destruct answer as [e|response]; [discriminate|].
  destruct (status_code response =? 200)%Z; [|discriminate].
  destruct (json response) as [e|result]; [discriminate|].
  destruct (content_0_text result) as [e|content]; [discriminate|].
  destruct (split_newlines content) as [e|pieces]; [discriminate|].
  intros H. injection H as <-. unfold terms_of_pieces. apply firstn_le_length.
Qed.

(** What a run emits and sends, whichever way it goes. *)
Lemma run_trace (input claude_api_key : str) (s : state) :
  exists notices closing calls,
    Forall is_progress notices
    /\ ((exists optimized_text, closing = finished optimized_text)
        \/ (exists message, closing = error_occurred message))
    /\ emitted (snd (run input claude_api_key s)) = emitted s ++ notices ++ [closing]
    /\ sent (snd (run input claude_api_key s))
       = sent s ++ POST (extract_request input claude_api_key) :: calls.
Proof.
  destruct (extract_outcome
              (fst (requests_post (extract_request input claude_api_key) (outside s))))
    as [e|terms] eqn:Hout.
  - exists [progress_1], (error_occurred (str_exn e)), [].
    rewrite (run_extract_fails _ _ _ Hout). simpl.
    split; [repeat constructor|]. split; [right; now eexists|]. now split.
  - rewrite (run_extract_returns _ _ _ Hout). simpl.
    eexists ([progress_1; progress_2] ++ search_events terms _ ++ [progress_3]).
    eexists. eexists. split; [|split; [|split]].
    3: repeat rewrite <- app_assoc; reflexivity.
    3: reflexivity.
    + repeat constructor. apply Forall_app. split;
        [apply search_events_progress|repeat constructor].
    + unfold terminal_event.
      destruct (optimize_outcome _) as [e|v]; [right; now eexists|].
      destruct (delivered v) as [e|t]; [right|left]; now eexists.
Qed.

(** X9: pressing the button with a non-blank text and key always leaves the
    window ready for the next run, however the run went: the button is
    enabled again and the progress bar hidden, the two input fields are
    untouched. After a success the output holds the text of [finished] and
    no box was shown; after a failure the output is empty (it was cleared at
    the start and nothing partial is written) and exactly one error box
    carries the message. *)
Theorem window_is_rearmed_after_run (app : App) (w : world) :
  strip (input_text app) <> [] ->
  strip (api_key_input app) <> [] ->
  let app' := fst (fst (process_clicked app w)) in
  let signals := emitted (snd (run (strip (input_text app)) (strip (api_key_input app))
                                   (new_worker w))) in
  process_btn_enabled app' = true
  /\ progress_bar_visible app' = false
  /\ input_text app' = input_text app
  /\ api_key_input app' = api_key_input app
  /\ ((exists optimized_text notices,
          signals = notices ++ [finished optimized_text]
          /\ output_text app' = optimized_text
          /\ status_label app' = lit "Optimization completed successfully!"
          /\ dialogs app' = dialogs app)
      \/ (exists message notices,
            signals = notices ++ [error_occurred message]
            /\ output_text app' = []
            /\ status_label app' = lit "Error occurred during processing."
            /\ dialogs app'
               = dialogs app
                 ++ [critical (lit "Error")
                              (lit "An error occurred:" ++ [nl] ++ message)])).
Proof.
  intros Htext Hkey app' signals. unfold app', signals, process_clicked, start_processing.
  destruct (strip (input_text app)) as [|c r] eqn:Etext; [contradiction|].
  destruct (strip (api_key_input app)) as [|d q] eqn:Ekey; [contradiction|].
  cbn [negb truthy fst snd].
  destruct (run_trace (c :: r) (d :: q) (new_worker w))
    as (notices & closing & calls & Hnotices & Hclosing & Hemitted & _).
  rewrite Hemitted. cbn [new_worker emitted]. rewrite app_nil_l, fold_left_app.
  cbn [fold_left].
  destruct (deliver_notices
              {| input_text := input_text app;
                 api_key_input := api_key_input app;
                 process_btn_enabled := false;
                 progress_bar_visible := true;
                 progress_bar_range := (0, 0)%Z;
                 output_text := [];
                 status_label := status_label app;
                 dialogs := dialogs app |} Hnotices) as [E|[m E]];
    rewrite E; clear E;
    (destruct Hclosing as [[t ->]|[m' ->]];
     [ repeat (split; [reflexivity|]); left; exists t, notices; now repeat split
     | repeat (split; [reflexivity|]); right; exists m', notices; now repeat split ]).
Qed.

(** X10: the worker started by the button works on the trimmed text and the
    trimmed key: the first network call of the press is the extract request
    built from them, the key travelling in its [X-API-Key] header. *)
Theorem button_sends_trimmed_input (app : App) (w : world) :
  strip (input_text app) <> [] ->
  strip (api_key_input app) <> [] ->
  exists calls,
    snd (process_clicked app w)
    = POST (extract_request (strip (input_text app)) (strip (api_key_input app)))
      :: calls
    /\ dict_get (post_headers (extract_request (strip (input_text app))
                                               (strip (api_key_input app))))
                (lit "X-API-Key")
       = Some (strip (api_key_input app)).
Proof.
  intros Htext Hkey. unfold process_clicked, start_processing.
  destruct (strip (input_text app)) as [|c r] eqn:Etext; [contradiction|].
  destruct (strip (api_key_input app)) as [|d q] eqn:Ekey; [contradiction|].
  cbn [negb truthy fst snd].
  destruct (run_trace (c :: r) (d :: q) (new_worker w))
    as (notices & closing & calls & _ & _ & _ & Hsent).
  exists calls. split; [exact Hsent|reflexivity].
Qed.

End WindowAndWorker.

Lemma window_is_rearmed_after_run_witness :
  process_btn_enabled
    (fst (fst (process_clicked (O := scripted)
                 (blank_window (lit " Buy organic coffee beans online ") (lit " key "))
                 one_search_fails)))
  = true
  /\ output_text
       (fst (fst (process_clicked (O := scripted)
                    (blank_window (lit " Buy organic coffee beans online ") (lit " key "))
                    one_search_fails)))
     = lit "Better coffee".
Proof.
  destruct (@window_is_rearmed_after_run scripted
              (blank_window (lit " Buy organic coffee beans online ") (lit " key "))
              one_search_fails ltac:(discriminate) ltac:(discriminate))
    as (Henabled & _).
  split; [exact Henabled|reflexivity].
Defined.

Lemma button_sends_trimmed_input_witness :
  exists calls,
    snd (process_clicked (O := scripted)
           (blank_window (lit " Buy organic coffee beans online ") (lit " key "))
           one_search_fails)
    = POST (extract_request coffee_text (lit "key")) :: calls.
Proof.
  destruct (@button_sends_trimmed_input scripted
              (blank_window (lit " Buy organic coffee beans online ") (lit " key "))
              one_search_fails ltac:(discriminate) ltac:(discriminate))
    as (calls & Hcalls & _).
  exists calls. exact Hcalls.
Defined.

(** ** Bounds and shape of a run *)

Section RunBounds.
Context {O : Outside}.

Lemma term_results_length (answer : exn + Response) :
  length (term_results answer) <= 5.
Proof.
  unfold term_results. destruct answer as [e|response]; simpl; [lia|].
  destruct (status_code response =? 200)%Z; simpl; [|lia].
  destruct (soup response) as [e|page]; simpl; [lia|].
  unfold page_results, result_containers.
  etransitivity; [apply collect_length|]. apply firstn_le_length.
Qed.

Lemma collected_length (terms : list str) (w : world) :
  length (collected terms w) <= 5 * length terms.
Proof.
  unfold collected. revert w.
  induction terms as [|term terms IH]; intros w; simpl; [lia|].
  rewrite length_app.
  pose proof (term_results_length (fst (requests_get (search_request term) w))).
  pose proof (IH (snd (requests_get (search_request term) w))). lia.
Qed.

Lemma search_events_length (terms : list str) (w : world) :
  length terms <= length (search_events terms w) <= 2 * length terms.
Proof.
  unfold search_events. revert w.
  induction terms as [|term terms IH]; intros w; simpl; [lia|].
  rewrite length_app.
  pose proof (IH (snd (requests_get (search_request term) w))).
  destruct (term_failure _); simpl; lia.
Qed.

Lemma search_requests_length (terms : list str) :
  length (search_requests terms) = length terms.
Proof. unfold search_requests. apply length_map. Qed.

(** X11: the search step only ever adds: whatever the start state and the
    answers, it returns, keeps what was collected before as a prefix and adds
    at most five results per term, sends exactly one GET per term in the
    order of the terms, and emits between one and two progress notifications
    per term and nothing else. *)
Theorem perform_searches_growth (terms : list str) (s : state) :
  exists added notices,
    perform_searches terms s
    = (inr tt, snd (perform_searches terms s))
    /\ search_results (snd (perform_searches terms s)) = search_results s ++ added
    /\ length added <= 5 * length terms
    /\ sent (snd (perform_searches terms s))
       = sent s ++ map (fun term => GET (search_request term)) terms
    /\ emitted (snd (perform_searches terms s)) = emitted s ++ notices
    /\ Forall is_progress notices
    /\ length terms <= length notices <= 2 * length terms.
Proof.
  exists (collected terms (outside s)), (search_events terms (outside s)).
  rewrite perform_searches_effect. cbn [snd search_results sent emitted].
  split; [reflexivity|]. split; [reflexivity|].
  split; [apply collected_length|]. split; [reflexivity|].
  split; [reflexivity|]. split; [apply search_events_progress|].
  apply search_events_length.
Qed.

(** X12: a run of a fresh worker makes at most 12 network calls (the extract
    call, at most ten searches, the rewrite call), collects at most 50
    results and emits at most 24 signals, whatever the world answers. *)
Theorem run_is_bounded (input claude_api_key : str) (w : world) :
  let s := snd (run input claude_api_key (new_worker w)) in
  length (sent s) <= 12
  /\ length (search_results s) <= 50
  /\ 2 <= length (emitted s) <= 24.
Proof.
  intros s. unfold s.
  destruct (extract_outcome
              (fst (requests_post (extract_request input claude_api_key)
                                  (outside (new_worker w)))))
    as [e|terms] eqn:Hout.
  - rewrite (run_extract_fails _ _ _ Hout). simpl. lia.
  - rewrite (run_extract_returns _ _ _ Hout).
    cbn [snd sent search_results emitted new_worker outside].
    pose proof (extract_outcome_length _ Hout) as Hten.
    repeat rewrite length_app. rewrite search_requests_length.
    pose proof (collected_length terms
                  (snd (requests_post (extract_request input claude_api_key) w))).
    pose proof (search_events_length terms
                  (snd (requests_post (extract_request input claude_api_key) w))).
    simpl. lia.
Qed.


(** X14: a failure of the rewrite call is fatal. When the extract step has
    returned and the rewrite call is answered with a status other than 200,
    the run ends with [error_occurred] carrying that status and body; no
    [finished] is emitted although the searches were made. *)
Theorem rewrite_failure_ends_run (input claude_api_key : str) (s s1 : state)
    (terms : list str) (response : Response) (w3 : world) :
  extract_search_terms input claude_api_key (snd (emit progress_1 s)) = (inr terms, s1) ->
  let s2 := snd (perform_searches terms (snd (emit progress_2 s1))) in
  requests_post (optimize_request input claude_api_key (search_results s2)) (outside s2)
  = (inr response, w3) ->
  status_code response <> 200%Z ->
  run input claude_api_key s
  = (inr tt,
     {| outside := w3;
        emitted := emitted s2
                   ++ [ progress_updated (lit "Optimizing content with Claude...");
                        error_occurred (lit "Claude API error: "
                                        ++ str_of_int (status_code response)
                                        ++ lit " - " ++ text response) ];
        search_results := search_results s2;
        sent := sent s2
                ++ [POST (optimize_request input claude_api_key (search_results s2))] |}).
Proof.
  intros H s2. apply extract_returned in H. destruct H as [Hout Hs1].
  unfold s2. rewrite perform_searches_effect, Hs1.
  cbn [snd emit outside search_results emitted sent]. intros Hpost Hstatus.
  rewrite (run_extract_returns _ _ _ Hout). cbv zeta. rewrite Hpost.
  unfold terminal_event, optimize_outcome. cbn [fst snd].
  destruct (Z.eqb_spec (status_code response) 200); [contradiction|].
  cbn [api_error str_exn]. f_equal. f_equal; repeat rewrite <- app_assoc; reflexivity.
Qed.

(** X15: whatever makes the extract step raise (the request itself, the JSON
    decoding, the lookup of [content[0].text], a text that is not a string),
    the run ends at once: one progress notification, one [error_occurred]
    with the text of the exception, the extract request as the only call,
    nothing collected. *)
Theorem extract_exception_ends_run (input claude_api_key : str) (s s1 : state)
    (e : exn) :
  extract_search_terms input claude_api_key (snd (emit progress_1 s)) = (inl e, s1) ->
  run input claude_api_key s
  = (inr tt,
     {| outside := outside s1;
        emitted := emitted s
                   ++ [ progress_updated (lit "Extracting search terms using Claude...");
                        error_occurred (str_exn e) ];
        search_results := search_results s;
        sent := sent s ++ [POST (extract_request input claude_api_key)] |}).
Proof.
  rewrite extract_search_terms_effect. cbn [snd emit outside]. intros H.
  injection H as Hout <-. now rewrite (run_extract_fails _ _ _ Hout).
Qed.

(** X16: an answer with status 200 whose JSON object has no [content] key
    ends the run with the bare text of the [KeyError], ['content'], as the
    whole error message. *)
Theorem missing_content_message (input claude_api_key : str) (s : state)
    (response : Response) (w : world) (d : list (str * value)) :
  requests_post (extract_request input claude_api_key) (outside s) = (inr response, w) ->
  status_code response = 200%Z ->
  json response = inr (JDict d) ->
  dict_get d (lit "content") = None ->
  emitted (snd (run input claude_api_key s))
  = emitted s ++ [ progress_updated (lit "Extracting search terms using Claude...");
                   error_occurred (lit "'content'") ]
  /\ sent (snd (run input claude_api_key s))
     = sent s ++ [POST (extract_request input claude_api_key)].
Proof.
  intros Hpost Hstatus Hjson Hmissing.
  rewrite (@run_extract_fails _ input claude_api_key s (KeyError (lit "'content'"))).
  - now split.
  - rewrite Hpost. unfold extract_outcome. cbn [fst].
    rewrite Hstatus, Hjson. unfold content_0_text, getitem_key.
    now rewrite Hmissing.
Qed.

End RunBounds.


Lemma rewrite_failure_ends_run_witness :
  run (O := scripted) coffee_text (lit "key") (new_worker rewrite_is_refused)
  = (inr tt,
     {| outside := script [];
        emitted :=
          [ progress_1; progress_2;
            progress_updated (lit "Searching for: organic coffee");
            progress_updated (lit "Searching for: coffee beans");
            progress_updated (lit "Searching for: buy coffee online");
            progress_3;
            error_occurred (lit "Claude API error: 529 - overloaded") ];
        search_results := [coffee_result 1];
        sent :=
          [POST (extract_request coffee_text (lit "key"))]
          ++ search_requests coffee_terms
          ++ [POST (optimize_request coffee_text (lit "key") [coffee_result 1])] |}).
Proof.
  exact (@rewrite_failure_ends_run scripted coffee_text (lit "key")
           (new_worker rewrite_is_refused)
           (snd (extract_search_terms coffee_text (lit "key")
                   (snd (emit progress_1 (new_worker rewrite_is_refused)))))
           coffee_terms (status_only 529 (lit "overloaded")) (script [])
           eq_refl eq_refl ltac:(discriminate)).
Defined.

Lemma extract_exception_ends_run_witness :
  run (O := scripted) coffee_text (lit "key") (new_worker (script []))
  = (inr tt,
     {| outside := script [];
        emitted := [ progress_1; error_occurred (lit "connection failed") ];
        search_results := [];
        sent := [POST (extract_request coffee_text (lit "key"))] |}).
Proof.
  exact (@extract_exception_ends_run scripted coffee_text (lit "key")
           (new_worker (script []))
           (snd (extract_search_terms coffee_text (lit "key")
                   (snd (emit progress_1 (new_worker (script []))))))
           (LibraryError (lit "connection failed")) eq_refl).
Defined.

Lemma missing_content_message_witness :
  emitted (snd (run (O := scripted) coffee_text (lit "key")
                    (new_worker (script [inr no_content_answer]))))
  = [ progress_1; error_occurred (lit "'content'") ].
Proof.
  destruct (@missing_content_message scripted coffee_text (lit "key")
              (new_worker (script [inr no_content_answer]))
              no_content_answer (script [])
              [(lit "type", JStr (lit "error"))]
              eq_refl eq_refl eq_refl eq_refl)
    as (Hemitted & _).
  exact Hemitted.
Defined.

(** ** What terms, URLs and results can contain *)

Lemma lstrip_In (s : str) (c : char) : In c (lstrip s) -> In c s.
Proof.
  intros H. destruct (lstrip_suffix s) as [p Hp]. rewrite Hp.
  apply in_or_app. now right.
Qed.

Lemma strip_In (s : str) (c : char) : In c (strip s) -> In c s.
Proof.
  unfold strip. intros H. apply lstrip_In.
  destruct (rstrip_prefix (lstrip s)) as [q Hq]. rewrite Hq.
  apply in_or_app. now left.
Qed.

Lemma split_pieces (sep : char) (s : str) (piece : str) (c : char) :
  In piece (split sep s) -> In c piece -> In c s /\ c <> sep.
Proof.
  revert piece. induction s as [|d s IH]; intros piece; simpl.
  - intros [<-|[]] [].
  - destruct (N.eqb_spec d sep) as [E|E].
    + intros [<-|H] Hc; [destruct Hc|]. destruct (IH piece H Hc). auto.
    + destruct (split sep s) as [|p ps] eqn:Esplit.
      * intros [<-|[]] [<-|[]]. auto.
      * intros [<-|H] Hc.
        -- destruct Hc as [<-|Hc]; [auto|].
           destruct (IH p (or_introl eq_refl) Hc). auto.
        -- destruct (IH piece (or_intror H) Hc). auto.
Qed.

Lemma lstrip_blank (s : str) :
  Forall (fun c => isspace c = true) s -> lstrip s = [].
Proof. induction 1 as [|c s Hc _ IH]; simpl; [reflexivity|now rewrite Hc]. Qed.

Lemma strip_blank (s : str) :
  Forall (fun c => isspace c = true) s -> strip s = [].
Proof. intros H. unfold strip. now rewrite (lstrip_blank H). Qed.

Lemma filter_none (A : Type) (f : A -> bool) (l : list A) :
  (forall x, In x l -> f x = false) -> filter f l = [].
Proof.
  induction l as [|x l IH]; simpl; [reflexivity|]. intros H.
  rewrite (H x (or_introl eq_refl)). apply IH. intros y Hy. apply H. now right.
Qed.

(** X17: no extracted term contains a newline, and every character of a
    term is a character of the answer it was parsed from. *)
Theorem terms_hold_no_newline (content : str) :
  Forall (fun term => Forall (fun c => c <> nl /\ In c content) term)
         (parse_search_terms content).
Proof.
  unfold parse_search_terms, terms_of_pieces.
  apply Forall_firstn, Forall_forall. intros term Hterm.
  apply in_map_iff in Hterm. destruct Hterm as [piece [<- Hpiece]].
  apply filter_In in Hpiece. destruct Hpiece as [Hpiece _].
  apply Forall_forall. intros c H. apply strip_In in H.
  destruct (@split_pieces nl content piece _ Hpiece H). now split.
Qed.

Lemma blank_pieces_give_no_terms (content : str) :
  Forall (fun c => isspace c = true) content ->
  terms_of_pieces (split nl content) = [].
Proof.
  intros Hblank. unfold terms_of_pieces.
  assert (Hnone : filter (fun term => truthy (strip term)) (split nl content) = []).
  { apply filter_none. intros piece Hpiece.
    rewrite strip_blank; [reflexivity|].
    apply Forall_forall. intros c Hc.
    destruct (@split_pieces nl content piece _ Hpiece Hc) as [Hin _].
    exact (proj1 (Forall_forall _ _) Hblank c Hin). }
  now rewrite Hnone.
Qed.

(** X18: an answer made of whitespace only (blank lines included) gives no
    term at all. *)
Theorem blank_answer_gives_no_terms (content : str) :
  Forall (fun c => isspace c = true) content ->
  parse_search_terms content = [].
Proof. exact (@blank_pieces_give_no_terms content). Qed.

(** X19: the search URL of a term never contains a space. *)
Theorem search_url_has_no_space (term : str) :
  Forall (fun c => c <> space) (search_url term).
Proof.
  unfold search_url, replace_space_plus. apply Forall_app. split.
  - vm_compute. repeat constructor; discriminate.
  - apply Forall_forall. intros d H. apply in_map_iff in H.
    destruct H as [c [<- _]].
    destruct (N.eqb_spec c space) as [E|E]; [discriminate|exact E].
Qed.

(** X20: a literal [+] in a term cannot be told from a space: two terms that
    differ only in having a [+] where the other has a space are searched
    with the same URL. *)
Theorem plus_and_space_collide (before after : str) :
  search_url (before ++ plus :: after) = search_url (before ++ space :: after).
Proof.
  unfold search_url, replace_space_plus. now rewrite !map_app.
Qed.

Section BlankAnswer.
Context {O : Outside}.

(** X21: when the model's answer to the extract call holds no term (status
    200, a text of whitespace only), a fresh run makes no search at all and
    goes straight to the rewrite call, with an empty context block: exactly
    two network calls, both POSTs. *)
Theorem blank_answer_skips_searches (input claude_api_key : str) (w w1 : world)
    (response : Response) (result : value) (content : str) :
  requests_post (extract_request input claude_api_key) w = (inr response, w1) ->
  status_code response = 200%Z ->
  json response = inr result ->
  content_0_text result = inr (JStr content) ->
  Forall (fun c => isspace c = true) content ->
  sent (snd (run input claude_api_key (new_worker w)))
  = [ POST (extract_request input claude_api_key);
      POST (optimize_request input claude_api_key []) ]
  /\ post_json (optimize_request input claude_api_key [])
     = api_data 2000 (optimize_prompt input [])
  /\ search_results (snd (run input claude_api_key (new_worker w))) = [].
Proof.
  intros Hpost Hstatus Hjson Hcontent Hblank.
  assert (Hout : extract_outcome
                   (fst (requests_post (extract_request input claude_api_key)
                                       (outside (new_worker w)))) = inr []).
  { cbn [new_worker outside]. rewrite Hpost. unfold extract_outcome. cbn [fst].
    rewrite Hstatus, Hjson, Hcontent. cbn [split_newlines Z.eqb Pos.eqb].
    f_equal. exact (blank_pieces_give_no_terms Hblank). }
  rewrite (run_extract_returns _ _ _ Hout). now repeat split.
Qed.

End BlankAnswer.

Lemma blank_answer_gives_no_terms_witness :
  parse_search_terms (lit "  " ++ [nl] ++ [9%N; nl] ++ lit " ") = [].
Proof.
  apply (@blank_answer_gives_no_terms (lit "  " ++ [nl] ++ [9%N; nl] ++ lit " ")).
  repeat constructor.
Defined.

Lemma blank_answer_skips_searches_witness :
  sent (snd (run (O := scripted) coffee_text (lit "key")
                 (new_worker blank_answer_world)))
  = [ POST (extract_request coffee_text (lit "key"));
      POST (optimize_request coffee_text (lit "key") []) ].
Proof.
  destruct (@blank_answer_skips_searches scripted coffee_text (lit "key")
              blank_answer_world
              (script [inr (ok_json (lit "Better coffee"))])
              (ok_json (lit "  " ++ [nl] ++ [9%N; nl] ++ lit " "))
              (JDict [(lit "content",
                       JList [JDict [(lit "text",
                                      JStr (lit "  " ++ [nl] ++ [9%N; nl] ++ lit " "))]])])
              (lit "  " ++ [nl] ++ [9%N; nl] ++ lit " ")
              eq_refl eq_refl eq_refl eq_refl ltac:(repeat constructor))
    as (Hsent & _).
  exact Hsent.
Defined.

(** ** The text of a result *)

Lemma lstrip_app_fixed (x y : str) :
  x <> [] -> lstrip x = x -> lstrip (x ++ y) = x ++ y.
Proof.
  destruct x as [|c r]; [contradiction|]. intros _ H.
  pose proof (lstrip_head _ H) as Hc. simpl. now rewrite Hc.
Qed.

Lemma strip_ends (s : str) :
  lstrip (strip s) = strip s /\ lstrip (rev (strip s)) = rev (strip s).
Proof.
  split.
  - unfold strip. apply lstrip_fixed. intros c r E.
    destruct (rstrip_prefix (lstrip s)) as [q Hq].
    rewrite E in Hq. simpl in Hq. exact (lstrip_head _ Hq).
  - unfold strip, rstrip. rewrite rev_involutive. apply lstrip_idempotent.
Qed.

Lemma ends_strip (s : str) :
  lstrip s = s -> lstrip (rev s) = rev s -> strip s = s.
Proof.
  intros H1 H2. unfold strip, rstrip. now rewrite H1, H2, rev_involutive.
Qed.

Lemma concat_ends (l : list str) :
  Forall (fun p => p <> [] /\ lstrip p = p /\ lstrip (rev p) = rev p) l ->
  lstrip (concat l) = concat l /\ lstrip (rev (concat l)) = rev (concat l).
Proof.
  induction 1 as [|p ps [Hne [Hl Hr]] Hps [IHl IHr]]; simpl; [now split|].
  split; [now apply lstrip_app_fixed|].
  rewrite rev_app_distr. destruct (concat ps) as [|c r] eqn:E.
  - simpl. exact Hr.
  - apply lstrip_app_fixed; [|exact IHr].
    intros Hnil. apply (f_equal (@rev char)) in Hnil.
    rewrite rev_involutive in Hnil. discriminate Hnil.
Qed.

Lemma get_text_strip_trimmed (e : PageElement) :
  strip (get_text_strip e) = get_text_strip e.
Proof.
  unfold get_text_strip.
  destruct (@concat_ends (filter truthy (map strip (strings e)))) as [Hl Hr].
  - apply Forall_forall. intros p Hp. apply filter_In in Hp.
    destruct Hp as [Hp Hne]. apply in_map_iff in Hp. destruct Hp as [x [<- _]].
    split; [now destruct (strip x)|apply strip_ends].
  - now apply ends_strip.
Qed.

(** X22: the title and the description of every result taken from a page
    carry no leading or trailing whitespace: trimming them changes nothing. *)
Theorem results_are_trimmed (page : PageElement) (r : SearchResult) :
  In r (page_results page) ->
  strip (title r) = title r /\ strip (description r) = description r.
Proof.
  intros Hr. apply collect_In in Hr. destruct Hr as [c [_ Hr]].
  apply result_of_container_Some in Hr. destruct Hr as [t [d [_ [_ ->]]]].
  simpl. split; apply get_text_strip_trimmed.
Qed.

Lemma results_are_trimmed_witness :
  In (coffee_result 3) (page_results crowded_page)
  /\ strip (title (coffee_result 3)) = title (coffee_result 3)
  /\ strip (description (coffee_result 3)) = description (coffee_result 3).
Proof.
  assert (H : In (coffee_result 3) (page_results crowded_page)).
  { vm_compute. tauto. }
  split; [exact H|]. exact (@results_are_trimmed crowded_page (coffee_result 3) H).
Defined.

(** ** Loading a stored key *)

Section LoadFound.
Context {K : Keyring}.

(** X23: when the store answers a non-empty key, [load_api_key] puts it in
    the key field exactly as stored, without trimming it, shows the success
    box only if asked to, disables the load button under the label [Loaded]
    with a check mark and arms one two-second timer; when that timer fires,
    the button has its former label again and is enabled. *)
Theorem load_fills_field_and_timer_restores (show_message : bool) (p : Panel)
    (v v' : vault) (c : char) (r : str) :
  get_password (lit "seo_optimizer") (lit "claude_api_key") v
  = (inr (Some (c :: r)), v') ->
  let p' := fst (load_api_key show_message p v) in
  api_key_input (window p') = c :: r
  /\ input_text (window p') = input_text (window p)
  /\ boxes p' = boxes p
                ++ (if show_message
                    then [information (lit "Success")
                                      (lit "API key loaded successfully!")]
                    else [])
  /\ load_key_btn_text p' = lit "Loaded " ++ [check_mark]
  /\ load_key_btn_enabled p' = false
  /\ timers p' = timers p ++ [(2000%Z, reset_load_button (load_key_btn_text p))]
  /\ load_key_btn_text (fire (reset_load_button (load_key_btn_text p)) p')
     = load_key_btn_text p
  /\ load_key_btn_enabled (fire (reset_load_button (load_key_btn_text p)) p') = true
  /\ snd (load_api_key show_message p v) = v'.
Proof.
  intros Hget. unfold load_api_key.
  change (lit "seo_optimizer") with service_name in Hget.
  change (lit "claude_api_key") with account_name in Hget.
  rewrite Hget. destruct show_message; simpl; rewrite ?app_nil_r; repeat split.
Qed.

End LoadFound.

Lemma load_fills_field_and_timer_restores_witness :
  api_key_input
    (window (fst (load_api_key (K := memory_keyring) false
                    (blank_panel coffee_text [])
                    [((lit "seo_optimizer", lit "claude_api_key"), lit " key ")])))
  = lit " key ".
Proof.
  destruct (@load_fills_field_and_timer_restores memory_keyring false
              (blank_panel coffee_text [])
              [((lit "seo_optimizer", lit "claude_api_key"), lit " key ")]
              [((lit "seo_optimizer", lit "claude_api_key"), lit " key ")]
              32%N (lit "key ") eq_refl)
    as (Hfield & _).
  exact Hfield.
Defined.
